(** * FTS: chunked file storage service (FTS.go)

    A shallow embedding of the two request handlers of FTS.go that move
    file content, [uploadFileHandler] and [downloadFileHandler], together
    with the collaborators they talk to: the uploaded multipart file (an
    [io.Reader]), the PostgreSQL handle [db] and the HTTP request and
    response.  Byte slices are [list byte], Go [int] lengths and indices
    that are never negative are [nat], the database is a pair of row
    lists threaded through the handlers, and every statement sent to the
    database is recorded in a trace so that the order of the effects can
    be stated. *)

From Stdlib Require Import Strings.Ascii Strings.String Strings.Byte Arith Lia DecimalString.
From stdpp Require Import base list strings.

Open Scope string_scope.
Open Scope list_scope.
Open Scope nat_scope.

(** ** The uploaded file as an [io.Reader] *)

Module IO.

(** [error] values the handlers can tell apart: [io.EOF] and the rest. *)
Inductive error : Type :=
| EOF
| ErrOther (msg : string).

(** [mime/multipart] hands out one of two readers for an uploaded part:
    a section reader over a byte slice when the part was kept in memory,
    or an [*os.File] over a temporary file when it was spilled to disk.
    Only the latter can fail with an I/O error; [bad] is the offset of an
    unreadable byte of the temporary file, if there is one. *)
Inductive Backing : Type :=
| InMemory
| OnDisk (bad : option nat).

Record File : Type := mkFile {
  backing : Backing;
  contents : list byte;
  offset : nat
}.

Definition remaining (f : File) : nat := length (contents f) - offset f.

Definition advance (f : File) (n : nat) : File :=
  {| backing := backing f; contents := contents f; offset := offset f + n |}.

(** Does a read of [n] bytes at offset [off] touch the unreadable byte? *)
Definition faulty (bad : option nat) (off n : nat) : bool :=
  match bad with
  | Some b => (off <=? b) && (b <? off + n)
  | None => false
  end.

(** [Read f k] is [file.Read(p)] with [len(p) = k]: the bytes stored in
    [p[:n]], the error, and the file after the call.

    In memory (io.SectionReader.Read over bytes.Reader.ReadAt): at or
    past the end it returns [0, EOF]; otherwise [p] is cut down to the
    bytes left and filled completely, with a nil error.

    On disk (os.File.Read): an empty [p] gives [0, nil]; a failing read
    gives [0, err]; a read of zero bytes is turned into [0, EOF]; else
    the bytes read, with a nil error. *)
Definition Read (f : File) (k : nat) : list byte * option error * File :=
  let p := take k (drop (offset f) (contents f)) in
  match backing f with
  | InMemory =>
      if length (contents f) <=? offset f then ([], Some EOF, f)
      else (p, None, advance f (length p))
  | OnDisk bad =>
      if k =? 0 then ([], None, f)
      else if faulty bad (offset f) (length p)
      then ([], Some (ErrOther "input/output error"), f)
      else if length p =? 0 then ([], Some EOF, f)
      else (p, None, advance f (length p))
  end.

(** [err != nil && err != io.EOF] *)
Definition fatal (err : option error) : bool :=
  match err with
  | Some (ErrOther _) => true
  | Some EOF | None => false
  end.

(** A file whose every byte can be read. *)
Definition healthy (f : File) : Prop :=
  backing f = InMemory \/ backing f = OnDisk None.

End IO.

Import IO.

(** ** The chunk splitter (FTS.go, lines 75-88) *)

(** [const chunkSize = 1 << 20] *)
Definition chunkSize : nat := Nat.shiftl 1 20.

Inductive ReadOutcome : Type :=
| ReadDone (chunks : list (list byte))
| ReadFailed.

(** The [for { ... }] loop that fills [chunks].  Each iteration reads
    into a fresh buffer of [bufSize] bytes; an error other than EOF
    leaves the handler, a read of zero bytes leaves the loop, anything
    else appends [chunk[:n]].  The loop has no bound of its own, so the
    model counts iterations down from [fuel] and answers [None] when
    they run out. *)
Fixpoint readChunks (fuel bufSize : nat) (file : File)
    (chunks : list (list byte)) : option ReadOutcome :=
  match fuel with
  | 0 => None
  | S fuel' =>
      let '(chunk, err, file') := Read file bufSize in
      if fatal err then Some ReadFailed
      else if length chunk =? 0 then Some (ReadDone chunks)
      else readChunks fuel' bufSize file' (chunks ++ [chunk])
  end.

(** The loop run on a file from its current offset, with one iteration
    per byte left plus the one that sees the end. *)
Definition splitFile (bufSize : nat) (file : File) : option ReadOutcome :=
  readChunks (S (remaining file)) bufSize file [].

(** Number of chunks of size [C] needed for [L] bytes. *)
Definition ceil_div (L C : nat) : nat := (L + C - 1) / C.

(** What a sequence of chunks has to look like for a chunk size [k]:
    full chunks, then possibly one shorter, non-empty chunk. *)
Inductive Chunked (k : nat) : list byte -> list (list byte) -> Prop :=
| Chunked_nil : Chunked k [] []
| Chunked_last c : 0 < length c -> length c <= k -> Chunked k c [c]
| Chunked_cons c rest cs :
    length c = k -> rest <> [] -> Chunked k rest cs ->
    Chunked k (c ++ rest) (c :: cs).

(** ** The database behind [db] *)

Module Store.

(** A row of [file_metadata].  The INSERT of the upload handler names
    three columns; [upload_time], which the listing handler selects, is
    filled in by the server. *)
Record MetaRow : Type := mkMeta {
  file_id : string;
  filename : string;
  total_chunks : nat;
  upload_time : string
}.

(** A row of [file_chunks]. *)
Record ChunkRow : Type := mkChunk {
  chunk_file_id : string;
  chunk_index : nat;
  chunk_data : list byte
}.

Record DB : Type := mkDB {
  file_metadata : list MetaRow;
  file_chunks : list ChunkRow
}.

(** The four statements the two handlers send. *)
Inductive Stmt : Type :=
| InsertMeta (id fname : string) (n : nat)
| InsertChunk (id : string) (index : nat) (data : list byte)
| SelectMeta (id : string)
| SelectChunk (id : string) (index : nat).

(** How the server behaves during a request: the error it reports for
    a statement, if it is going to refuse it, and its clock. *)
Record Server : Type := mkServer {
  failure : Stmt -> option string;
  now : string
}.

Inductive result (A : Type) : Type :=
| Ok (a : A)
| Err (msg : string).
Arguments Ok {A} a.
Arguments Err {A} msg.

(** [db.Exec(q, ...)]: a refused statement changes nothing, an accepted
    INSERT adds its row. *)
Definition Exec (pg : Server) (db : DB) (q : Stmt) : DB * option string :=
  match failure pg q with
  | Some e => (db, Some e)
  | None =>
      match q with
      | InsertMeta id fname n =>
          (mkDB (file_metadata db ++ [mkMeta id fname n (now pg)]) (file_chunks db), None)
      | InsertChunk id index data =>
          (mkDB (file_metadata db) (file_chunks db ++ [mkChunk id index data]), None)
      | SelectMeta _ | SelectChunk _ _ => (db, None)
      end
  end.

Definition ErrNoRows : string := "sql: no rows in result set".

(** [db.QueryRow(`SELECT filename, total_chunks FROM file_metadata
    WHERE file_id = $1`, id).Scan(&filename, &totalChunks)] *)
Definition QueryMeta (pg : Server) (db : DB) (id : string) : result (string * nat) :=
  match failure pg (SelectMeta id) with
  | Some e => Err e
  | None =>
      match List.find (fun row => bool_decide (file_id row = id)) (file_metadata db) with
      | Some row => Ok (filename row, total_chunks row)
      | None => Err ErrNoRows
      end
  end.

(** [db.QueryRow(`SELECT chunk_data FROM file_chunks WHERE file_id = $1
    AND chunk_index = $2`, id, index).Scan(&chunkData)] *)
Definition QueryChunk (pg : Server) (db : DB) (id : string) (index : nat) : result (list byte) :=
  match failure pg (SelectChunk id index) with
  | Some e => Err e
  | None =>
      match List.find (fun row => bool_decide (chunk_file_id row = id)
                                  && (chunk_index row =? index))
                      (file_chunks db) with
      | Some row => Ok (chunk_data row)
      | None => Err ErrNoRows
      end
  end.

(** Number of chunk rows stored under a file id. *)
Definition count_chunks (id : string) (db : DB) : nat :=
  length (filter (fun row => chunk_file_id row = id) (file_chunks db)).

(** The record a reader finds for a file id, if there is one. *)
Definition lookup_meta (id : string) (db : DB) : option MetaRow :=
  List.find (fun row => bool_decide (file_id row = id)) (file_metadata db).

End Store.

Import Store.

(** ** Requests and responses *)

Module Http.

(** A part of a multipart body: the [name] and the [filename] parameter
    of its Content-Disposition header, each empty when the header does
    not have it, and its content. *)
Record Part : Type := mkPart {
  FormName : string;
  FileName : string;
  Data : list byte
}.

(** [multipart.FileHeader]; [Open] is the reader [fh.Open()] returns. *)
Record FileHeader : Type := mkFileHeader {
  Filename : string;
  Open : File
}.

(** What the handlers use of an [*http.Request]: the parts of the body
    ([None] when the library does not take the body for a multipart
    form: it is none, it is malformed, or its values and headers exceed
    what the library keeps in memory), the form once it has been parsed,
    and the URL query.  [TempFault] belongs to the
    machine rather than to the request: the unreadable offset of the
    temporary files parts are spilled to, if their disk is failing. *)
Record Request : Type := mkRequest {
  Body : option (list Part);
  MultipartForm : option (list (string * FileHeader));
  Query : list (string * string);
  TempFault : option nat
}.

Definition isSlash (c : Ascii.ascii) : bool := Ascii.eqb c "/"%char.

(** [for len(path) > 0 && os.IsPathSeparator(path[len(path)-1])], on the
    reversed path. *)
Fixpoint dropSlashes (l : list Ascii.ascii) : list Ascii.ascii :=
  match l with
  | [] => []
  | c :: l' => if isSlash c then dropSlashes l' else l
  end.

(** The characters after the last separator, on the reversed path. *)
Fixpoint upToSlash (l : list Ascii.ascii) : list Ascii.ascii :=
  match l with
  | [] => []
  | c :: l' => if isSlash c then [] else c :: upToSlash l'
  end.

(** [filepath.Base] where the separator is [/] and there are no volume
    names (the service is built for Linux): trailing separators are
    stripped, the last element is kept, the empty path gives [.] and a
    path of separators only gives [/]. *)
Definition Base (path : string) : string :=
  if bool_decide (path = "") then "."
  else
    match upToSlash (dropSlashes (rev (list_ascii_of_string path))) with
    | [] => "/"
    | c :: l => string_of_list_ascii (rev (c :: l))
    end.

(** [multipart.Reader.ReadForm].  A part without a name is skipped.  A
    part without a file name is a form value: it goes to [form.Value],
    where [FormFile] does not look.  Any other part is a file, listed
    under its name with the base name of its file name ([Part.FileName]
    applies [filepath.Base]); it is kept in memory while the memory
    budget for file content lasts and is written to a temporary file
    otherwise.  No file is refused for its size. *)
Fixpoint readForm (budget : N) (fault : option nat) (parts : list Part)
    : list (string * FileHeader) :=
  match parts with
  | [] => []
  | p :: ps =>
      if bool_decide (FormName p = "") then readForm budget fault ps
      else if bool_decide (FileName p = "") then readForm budget fault ps
      else
        let n := N.of_nat (length (Data p)) in
        if (n <=? budget)%N
        then (FormName p,
              mkFileHeader (Base (FileName p)) (mkFile InMemory (Data p) 0))
               :: readForm (budget - n)%N fault ps
        else (FormName p,
              mkFileHeader (Base (FileName p)) (mkFile (OnDisk fault) (Data p) 0))
               :: readForm budget fault ps
  end.

(** [r.ParseMultipartForm(maxMemory)]; the handler drops its error, so
    the model returns the request only. *)
Definition ParseMultipartForm (maxMemory : N) (r : Request) : Request :=
  match MultipartForm r, Body r with
  | None, Some parts =>
      mkRequest (Body r) (Some (readForm maxMemory (TempFault r) parts))
                (Query r) (TempFault r)
  | _, _ => r
  end.

(** [defaultMaxMemory = 32 << 20] *)
Definition defaultMaxMemory : N := N.shiftl 32 20.

(** [r.FormFile(key)]: parses the form if that has not happened yet and
    returns the first file stored under [key]. *)
Definition FormFile (key : string) (r : Request) : option FileHeader :=
  let r := match MultipartForm r with
           | None => ParseMultipartForm defaultMaxMemory r
           | Some _ => r
           end in
  match MultipartForm r with
  | Some files =>
      match List.find (fun kv => bool_decide (fst kv = key)) files with
      | Some kv => Some (snd kv)
      | None => None
      end
  | None => None
  end.

(** [r.URL.Query().Get(key)]: the first value of [key], or the empty
    string. *)
Definition Get (key : string) (q : list (string * string)) : string :=
  match List.find (fun kv => bool_decide (fst kv = key)) q with
  | Some kv => snd kv
  | None => ""
  end.

(** The value of a query parameter, [None] when the URL does not have
    the parameter at all. *)
Definition param (key : string) (q : list (string * string)) : option string :=
  snd <$> List.find (fun kv => bool_decide (fst kv = key)) q.

Record Response : Type := mkResponse {
  StatusCode : nat;
  Header : list (string * string);
  ResponseBody : list byte
}.

Definition StatusOK : nat := 200.
Definition StatusBadRequest : nat := 400.
Definition StatusNotFound : nat := 404.
Definition StatusInternalServerError : nat := 500.

Definition LF : string := String (Ascii.ascii_of_nat 10) "".

(** [http.Error(w, msg, code)] *)
Definition Error (msg : string) (code : nat) : Response :=
  mkResponse code
    [("Content-Type", "text/plain; charset=utf-8");
     ("X-Content-Type-Options", "nosniff")]
    (list_byte_of_string (msg ++ LF)%string).

End Http.

Import Http.

(** ** The handlers *)

(** One statement sent to the database: what was sent, the error that
    came back, and the tables right after it. *)
Record Event : Type := mkEvent {
  stmt : Stmt;
  failed : option string;
  after : DB
}.

(** The state a handler runs in: the tables and the statements sent so
    far, oldest first.  (The [fmt.Println] diagnostics of the goroutines
    go to the process output, which no response depends on; they are
    left out.) *)
Record World : Type := mkWorld {
  store : DB;
  trace : list Event
}.

Definition dbExec (pg : Server) (q : Stmt) (w : World) : World * option string :=
  let '(db', err) := Exec pg (store w) q in
  (mkWorld db' (trace w ++ [mkEvent q err db']), err).

Definition errorOf {A} (r : result A) : option string :=
  match r with
  | Ok _ => None
  | Err e => Some e
  end.

Definition dbQueryMeta (pg : Server) (id : string) (w : World)
    : World * result (string * nat) :=
  let r := QueryMeta pg (store w) id in
  (mkWorld (store w) (trace w ++ [mkEvent (SelectMeta id) (errorOf r) (store w)]), r).

Definition dbQueryChunk (pg : Server) (id : string) (index : nat) (w : World)
    : World * result (list byte) :=
  let r := QueryChunk pg (store w) id index in
  (mkWorld (store w) (trace w ++ [mkEvent (SelectChunk id index) (errorOf r) (store w)]), r).

(** [w.Write(b)] on a fresh response writer: status 200. *)
Definition Write (header : list (string * string)) (b : list byte) : Response :=
  mkResponse StatusOK header b.

(** The body of the goroutine started for [(index, chunk)] in the upload
    handler: one INSERT, whose error is printed and dropped.  A schedule
    entry for which the loop started no goroutine does nothing. *)
Definition storeChunk (pg : Server) (fileID : string) (chunks : list (list byte))
    (w : World) (index : nat) : World :=
  match chunks !! index with
  | Some chunk => fst (dbExec pg (InsertChunk fileID index chunk) w)
  | None => w
  end.

(** [uploadFileHandler].  [newID] is the value [uuid.New()] returns, in
    its text form.  The goroutines of lines 102-111 each run a single
    statement, so a run of them is an order of the chunk indices; [sched]
    is that order, a permutation of [0 .. totalChunks-1], and [wg.Wait()]
    is the end of the fold.  The result is [None] only if the read loop
    does not finish. *)
Definition uploadFileHandler (pg : Server) (newID : string) (sched : list nat)
    (w : World) (r : Request) : option (World * Response) :=
  let r := ParseMultipartForm (N.shiftl 10 20) r in
  match FormFile "file" r with
  | None => Some (w, Error "Error retrieving file" StatusBadRequest)
  | Some handler =>
      let file := Open handler in
      let fileID := newID in
      match splitFile chunkSize file with
      | None => None
      | Some ReadFailed =>
          Some (w, Error "Error reading file" StatusInternalServerError)
      | Some (ReadDone chunks) =>
          let totalChunks := length chunks in
          let '(w1, err) :=
            dbExec pg (InsertMeta fileID (Filename handler) totalChunks) w in
          match err with
          | Some _ =>
              Some (w1, Error "Error storing file metadata" StatusInternalServerError)
          | None =>
              let w2 := foldl (storeChunk pg fileID chunks) w1 sched in
              Some (w2, Write [] (list_byte_of_string
                                    ("File uploaded successfully with ID: " ++ fileID)%string))
          end
      end
  end.

(** The body of the goroutine started for [index] in the download
    handler: one SELECT; on an error the slot keeps its nil slice,
    otherwise [chunks[index] = chunkData]. *)
Definition fetchChunk (pg : Server) (fileID : string) (totalChunks : nat)
    (st : World * list (list byte)) (index : nat) : World * list (list byte) :=
  let '(w, chunks) := st in
  if index <? totalChunks then
    let '(w', res) := dbQueryChunk pg fileID index w in
    match res with
    | Err _ => (w', chunks)
    | Ok chunkData => (w', <[index := chunkData]> chunks)
    end
  else st.

(** [for _, chunk := range chunks { mergedFile.Write(chunk) }] *)
Definition mergeChunks (chunks : list (list byte)) : list byte :=
  foldl (fun mergedFile chunk => mergedFile ++ chunk) [] chunks.

(** [downloadFileHandler], with [sched] the order in which the reading
    goroutines run, a permutation of [0 .. totalChunks-1]. *)
Definition downloadFileHandler (pg : Server) (sched : list nat)
    (w : World) (r : Request) : World * Response :=
  let fileID := Get "id" (Query r) in
  if bool_decide (fileID = "") then
    (w, Error "File ID is required" StatusBadRequest)
  else
    let '(w1, res) := dbQueryMeta pg fileID w in
    match res with
    | Err _ => (w1, Error "File not found" StatusNotFound)
    | Ok (filename, totalChunks) =>
        let chunks := replicate totalChunks [] in
        let '(w2, chunks) := foldl (fetchChunk pg fileID totalChunks) (w1, chunks) sched in
        let mergedFile := mergeChunks chunks in
        (w2, Write [("Content-Disposition", ("attachment; filename=" ++ filename)%string)]
                   mergedFile)
    end.

(** ** Notions the statements below are made of *)

(** The data a reader gets for chunk [index] of [id]: the stored bytes,
    or nothing when the row is absent or the read fails. *)
Definition chunk_or_empty (pg : Server) (db : DB) (id : string) (index : nat) : list byte :=
  match QueryChunk pg db id index with
  | Ok d => d
  | Err _ => []
  end.

(** Lines 62-64 of the upload handler: the file of the form field
    [file], if the request has one. *)
Definition uploadedFile (r : Request) : option FileHeader :=
  FormFile "file" (ParseMultipartForm (N.shiftl 10 20) r).

(** The tables of [w] once the metadata row of an upload is in. *)
Definition with_meta (pg : Server) (id : string) (w : World)
    (h : FileHeader) (chunks : list (list byte)) : DB :=
  mkDB (file_metadata (store w)
          ++ [mkMeta id (Filename h) (length chunks) (now pg)])
       (file_chunks (store w)).

(** The text a successful upload answers with. *)
Definition uploaded_message (id : string) : list byte :=
  list_byte_of_string ("File uploaded successfully with ID: " ++ id)%string.

(** The slots of the download handler while its goroutines run: a slot
    holds the data of its chunk, or is still nil and its goroutine has
    not run ([ran] tells which have). *)
Definition slots_ok (pg : Server) (db : DB) (id : string) (totalChunks : nat)
    (ran : nat -> Prop) (chunks : list (list byte)) : Prop :=
  length chunks = totalChunks /\
  forall i, i < totalChunks ->
    chunks !! i = Some (chunk_or_empty pg db id i) \/
    (~ ran i /\ chunks !! i = Some []).

Definition is_chunk_insert (id : string) (e : Event) : Prop :=
  exists index data, stmt e = InsertChunk id index data.

Definition is_chunk_select (e : Event) : Prop :=
  exists id index, stmt e = SelectChunk id index.

(** Does the server accept the chunk write of index [i]? *)
Definition write_accepted (pg : Server) (id : string) (chunks : list (list byte))
    (i : nat) : bool :=
  match chunks !! i with
  | Some c =>
      match failure pg (InsertChunk id i c) with
      | None => true
      | Some _ => false
      end
  | None => false
  end.

(** Indices of a schedule whose chunk write the server accepts. *)
Definition accepted (pg : Server) (id : string) (chunks : list (list byte))
    (sched : list nat) : list nat :=
  List.filter (write_accepted pg id chunks) sched.

(** Indices of a schedule whose chunk write the server refuses. *)
Definition rejected (pg : Server) (id : string) (chunks : list (list byte))
    (sched : list nat) : list nat :=
  List.filter (fun i => negb (write_accepted pg id chunks i)) sched.

(** The INSERTs the goroutines of an upload send, in schedule order,
    and the rows they leave in [file_chunks]. *)
Definition chunk_stmts (id : string) (chunks : list (list byte))
    (sched : list nat) : list Stmt :=
  omap (fun i => InsertChunk id i <$> chunks !! i) sched.

Definition chunk_rows (pg : Server) (id : string) (chunks : list (list byte))
    (sched : list nat) : list ChunkRow :=
  omap (fun i => mkChunk id i <$> chunks !! i) (accepted pg id chunks sched).

(** The file-storage invariant of the data model, as a property of one
    run of the upload handler: whenever the INSERT of the metadata row
    has been accepted, the tables right after it hold as many chunks of
    the file as the row declares. *)
Definition visible_record_complete (pg : Server) (newID : string)
    (sched : list nat) (w : World) (r : Request) : Prop :=
  forall w' resp evs e fname n,
    uploadFileHandler pg newID sched w r = Some (w', resp) ->
    trace w' = trace w ++ evs ->
    e ∈ evs ->
    stmt e = InsertMeta newID fname n ->
    failed e = None ->
    n = count_chunks newID (after e).

(** The upload boundary as the interface description has it: more than
    10 MiB is refused, and a success answers with the identifier. *)
Definition upload_boundary_as_described (pg : Server) (newID : string)
    (sched : list nat) (w : World) (r : Request) : Prop :=
  forall w' resp,
    uploadFileHandler pg newID sched w r = Some (w', resp) ->
    (forall h, uploadedFile r = Some h ->
               (N.shiftl 10 20 < N.of_nat (length (contents (Open h))))%N ->
               StatusCode resp <> StatusOK) /\
    (StatusCode resp = StatusOK ->
     ResponseBody resp = list_byte_of_string newID).

(** Small fixtures for the examples. *)
Definition two_of_three : World :=
  mkWorld (mkDB [mkMeta "id-7" "notes.txt" 3 "2024-01-01 00:00:00"]
                [mkChunk "id-7" 2 [x63; x64]; mkChunk "id-7" 0 [x61]])
          [].
Definition flaky_pg : Server :=
  mkServer (fun q => match q with
                     | InsertChunk _ _ _ => Some "connection reset by peer"
                     | _ => None
                     end)
           "2024-01-01 00:00:00".
Definition healthy_pg : Server := mkServer (fun _ => None) "2024-01-01 00:00:00".
Definition empty_db : DB := mkDB [] [].
Definition fresh : World := mkWorld empty_db [].
Definition upload_of (fname : string) (data : list byte) : Request :=
  mkRequest (Some [mkPart "file" fname data]) None [] None.
Definition download_of (id : string) : Request :=
  mkRequest None None [("id", id)] None.

(** ** The listing handler (FTS.go, lines 121-144) *)

(** How the cursor of [db.Query] behaves during a request: the error of
    the query itself, if it fails, and the number of rows after which
    [rows.Next()] turns false although rows are left, if the connection
    breaks while the handler iterates. *)
Record Cursor : Type := mkCursor {
  query_error : option string;
  stops_after : option nat
}.

(** [db.Query(`SELECT file_id, filename, total_chunks, upload_time FROM
    file_metadata`)] and the rows [rows.Next()] walks through. *)
Definition QueryFiles (cur : Cursor) (db : DB) : result (list MetaRow) :=
  match query_error cur with
  | Some e => Err e
  | None =>
      Ok (match stops_after cur with
          | Some k => take k (file_metadata db)
          | None => file_metadata db
          end)
  end.

(** [%d] of a non-negative [int]. *)
Definition decimal (n : nat) : string :=
  NilEmpty.string_of_uint (Nat.to_uint n).

(** [fmt.Sprintf("File ID: %s, Filename: %s, Chunks: %d, Uploaded: %s\n",
    fileID, filename, totalChunks, uploadTime)] *)
Definition listingLine (fileID filename : string) (totalChunks : nat)
    (uploadTime : string) : string :=
  ("File ID: " ++ fileID ++ ", Filename: " ++ filename ++ ", Chunks: "
     ++ decimal totalChunks ++ ", Uploaded: " ++ uploadTime ++ LF)%string.

(** The [for rows.Next()] loop.  [scanUUID] is [uuid.UUID.Scan] followed
    by [%s]: the text of the identifier read from a [file_id] column, or
    [None] when the column does not hold one and [rows.Scan] fails.  A
    failing scan leaves the handler ([None]); otherwise the line of the
    row is added to [result]. *)
Fixpoint scanRows (scanUUID : string -> option string) (rows : list MetaRow)
    (result : string) : option string :=
  match rows with
  | [] => Some result
  | row :: rest =>
      match scanUUID (file_id row) with
      | None => None
      | Some fileID =>
          scanRows scanUUID rest
            (result ++ listingLine fileID (filename row) (total_chunks row)
                         (upload_time row))%string
      end
  end.

(** [getFilesHandler] *)
Definition getFilesHandler (cur : Cursor) (scanUUID : string -> option string)
    (db : DB) : Response :=
  match QueryFiles cur db with
  | Err _ => Error "Error retrieving files" StatusInternalServerError
  | Ok rows =>
      match scanRows scanUUID rows "" with
      | None => Error "Error reading file metadata" StatusInternalServerError
      | Some result => Write [] (list_byte_of_string result)
      end
  end.

(** ** Notions for the handlers taken together *)

(** No row of either table carries the id. *)
Definition fresh_id (id : string) (db : DB) : Prop :=
  Forall (fun row => file_id row <> id) (file_metadata db) /\
  Forall (fun row => chunk_file_id row <> id) (file_chunks db).

(** A statement that only reads. *)
Definition is_select (e : Event) : Prop :=
  match stmt e with
  | SelectMeta _ | SelectChunk _ _ => True
  | InsertMeta _ _ _ | InsertChunk _ _ _ => False
  end.

(** What an upload leaves of chunk [i] for a later reader: its bytes if
    the server took the write, nothing otherwise. *)
Definition stored_or_gap (pg : Server) (id : string) (chunks : list (list byte))
    (i : nat) : list byte :=
  if write_accepted pg id chunks i then default [] (chunks !! i) else [].

(** The line of a metadata row as the listing prints it. *)
Definition lineOf (row : MetaRow) : string :=
  listingLine (file_id row) (filename row) (total_chunks row) (upload_time row).

(** The lines of a sequence of rows, one after the other. *)
Definition listingOf (rows : list MetaRow) : string :=
  foldr (fun row s => (lineOf row ++ s)%string) "" rows.

(** A row whose id column is read back as it is stored, as the ids the
    upload handler writes are. *)
Definition scans (scanUUID : string -> option string) (row : MetaRow) : Prop :=
  scanUUID (file_id row) = Some (file_id row).

(** A store with two records, the second with an id column that does
    not hold an identifier. *)
Definition two_records : DB :=
  mkDB [mkMeta "id-7" "notes.txt" 3 "2024-01-01 00:00:00";
        mkMeta "id-8" "plan.txt" 1 "2024-01-02 00:00:00"] [].
Definition only_id7 (s : string) : option string :=
  if bool_decide (s = "id-7") then Some s else None.

(** More fixtures for the examples. *)
Definition always : Cursor := mkCursor None None.
Definition as_stored (s : string) : option string := Some s.
Definition spilled_bad : Request :=
  mkRequest None
    (Some [("file", mkFileHeader "b.bin" (mkFile (OnDisk (Some 1)) [x61; x62; x63] 0))])
    [] None.
Definition no_chunk_selects_fail (pg : Server) (id : string) : Prop :=
  failure pg (SelectMeta id) = None /\
  forall i, failure pg (SelectChunk id i) = None.

(** ** The splitter: what the read loop produces *)

Section Splitter.

Variable k : nat.
Hypothesis k_pos : 0 < k.

Lemma ceil_div_zero : ceil_div 0 k = 0.
Proof. unfold ceil_div. apply Nat.div_small. lia. Qed.

Lemma ceil_div_short n : 0 < n -> n <= k -> ceil_div n k = 1.
Proof.
  intros Hn Hk. unfold ceil_div. symmetry.
  apply (Nat.div_unique _ _ _ (n - 1)); lia.
Qed.

Lemma ceil_div_step n : ceil_div (k + n) k = S (ceil_div n k).
Proof.
  unfold ceil_div.
  replace (k + n + k - 1) with (1 * k + (n + k - 1)) by lia.
  rewrite Nat.div_add_l by lia. reflexivity.
Qed.

(** [ceil_div] is the ceiling of the quotient: the least number of
    chunks of [k] bytes that hold [n] bytes. *)
Lemma ceil_div_least n m : n <= m * k <-> ceil_div n k <= m.
Proof.
  unfold ceil_div. split; intros H.
  - apply Nat.lt_succ_r. apply Nat.Div0.div_lt_upper_bound. lia.
  - destruct (Nat.le_gt_cases n (m * k)) as [|Hgt]; [assumption|exfalso].
    assert (S m <= (n + k - 1) / k); [|lia].
    apply Nat.div_le_lower_bound; lia.
Qed.

Lemma Chunked_concat s cs : Chunked k s cs -> concat cs = s.
Proof.
  induction 1 as [|c|c rest cs Hc Hrest _ IH]; simpl.
  - reflexivity.
  - apply app_nil_r.
  - now rewrite IH.
Qed.

Lemma Chunked_count s cs : Chunked k s cs -> length cs = ceil_div (length s) k.
Proof.
  induction 1 as [|c Hpos Hle|c rest cs Hc Hrest _ IH]; simpl.
  - now rewrite ceil_div_zero.
  - now rewrite ceil_div_short.
  - rewrite length_app, Hc, ceil_div_step. now f_equal.
Qed.

Lemma Chunked_sizes s cs :
  Chunked k s cs ->
  forall i c, cs !! i = Some c ->
    0 < length c /\ length c <= k /\ (S i < length cs -> length c = k).
Proof.
  induction 1 as [|c Hpos Hle|c rest cs Hc Hrest _ IH]; intros i x Hi.
  - discriminate.
  - destruct i; simpl in Hi; [|discriminate].
    injection Hi as <-. simpl. repeat split; [assumption..|lia].
  - destruct i; simpl in Hi.
    + injection Hi as <-. lia.
    + destruct (IH _ _ Hi) as (H1 & H2 & H3). simpl. repeat split; [lia..|].
      intros. apply H3. lia.
Qed.

Lemma Chunked_empty cs : Chunked k [] cs -> cs = [].
Proof.
  intros H. remember [] as s eqn:Hs.
  destruct H as [|c Hpos Hle|c rest cs' Hc Hrest Hcs].
  - reflexivity.
  - subst c. simpl in Hpos. lia.
  - apply app_eq_nil in Hs as [_ Hr]. contradiction.
Qed.

(** One more chunk in front of a chunking of what follows it. *)
Lemma Chunked_take s cs :
  s <> [] -> Chunked k (drop k s) cs -> Chunked k s (take k s :: cs).
Proof.
  intros Hs Hcs. destruct (drop k s) as [|b rest] eqn:Hdrop.
  - apply Chunked_empty in Hcs as ->.
    assert (length s <= k) as Hlen.
    { apply (f_equal length) in Hdrop. rewrite length_drop in Hdrop.
      simpl in Hdrop. lia. }
    rewrite take_ge by assumption. apply Chunked_last; [|assumption].
    destruct s; [congruence|simpl; lia].
  - rewrite <- (take_drop k s) at 1. rewrite Hdrop. apply Chunked_cons.
    + apply length_take_le. apply (f_equal length) in Hdrop.
      rewrite length_drop in Hdrop. simpl in Hdrop. lia.
    + discriminate.
    + assumption.
Qed.

(** The three things a read into a non-empty buffer can do. *)
Lemma Read_cases f :
  let rest := drop (offset f) (contents f) in
  (rest = [] /\ Read f k = ([], Some EOF, f)) \/
  (rest <> [] /\ Read f k = (take k rest, None, advance f (length (take k rest)))) \/
  (~ healthy f /\ exists msg, Read f k = ([], Some (ErrOther msg), f)).
Proof.
  intros rest.
  assert (rest = [] <-> length (contents f) <= offset f) as Hnil.
  { unfold rest. rewrite <- length_zero_iff_nil, length_drop. lia. }
  assert (length (take k rest) = 0 <-> rest = []) as Htake.
  { rewrite length_take. rewrite <- length_zero_iff_nil. lia. }
  unfold Read, healthy. fold rest.
  destruct (backing f) as [|bad] eqn:Hb.
  - destruct (Nat.leb_spec (length (contents f)) (offset f)) as [Hle|Hlt].
    + left. split; [apply Hnil; assumption|reflexivity].
    + right; left. split; [|reflexivity]. rewrite Hnil. lia.
  - destruct (Nat.eqb_spec k 0) as [|_]; [lia|].
    destruct (faulty bad (offset f) (length (take k rest))) eqn:Hf.
    + right; right. split; [|eauto].
      intros [|Hnone]; [discriminate|].
      injection Hnone as ->. discriminate.
    + destruct (Nat.eqb_spec (length (take k rest)) 0) as [Hz|Hnz].
      * left. split; [apply Htake; assumption|reflexivity].
      * right; left. split; [|reflexivity]. rewrite <- Htake. assumption.
Qed.

(** The loop on a file with [fuel] to spare: either it fails on an
    unreadable byte, or it returns the chunks collected so far followed
    by a chunking of the bytes that were left. *)
Lemma readChunks_spec fuel : forall f acc,
  remaining f < fuel ->
  (readChunks fuel k f acc = Some ReadFailed /\ ~ healthy f) \/
  (exists cs, readChunks fuel k f acc = Some (ReadDone (acc ++ cs)) /\
              Chunked k (drop (offset f) (contents f)) cs).
Proof.
  induction fuel as [|fuel IH]; intros f acc Hfuel; [lia|].
  simpl. destruct (Read_cases f) as [[Hnil ->]|[[Hrest ->]|[Hbad [msg ->]]]]; simpl.
  - right. exists []. rewrite app_nil_r, Hnil. split; [reflexivity|constructor].
  - set (p := take k (drop (offset f) (contents f))).
    assert (0 < length p) as Hp.
    { unfold p. rewrite length_take.
      destruct (drop (offset f) (contents f)); [congruence|simpl; lia]. }
    destruct (Nat.eqb_spec (length p) 0) as [|_]; [lia|].
    assert (length p = k \/ length (contents f) <= offset f + length p) as Hfull.
    { unfold p. rewrite length_take, length_drop. lia. }
    assert (drop (offset (advance f (length p))) (contents (advance f (length p)))
            = drop k (drop (offset f) (contents f))) as Hdrop.
    { assert (length p <= k) by (unfold p; rewrite length_take; lia).
      simpl. rewrite drop_drop. destruct Hfull as [->|Hge]; [reflexivity|].
      rewrite !drop_ge; [reflexivity|lia..]. }
    destruct (IH (advance f (length p)) (acc ++ [p])) as [[Hfail Hbad]|(cs & Hcs & Hch)].
    + assert (length p <= length (contents f) - offset f)
        by (unfold p; rewrite length_take, length_drop; lia).
      unfold remaining in *. simpl. lia.
    + left. split; [assumption|]. exact Hbad.
    + right. exists (p :: cs). split.
      * rewrite Hcs. now rewrite <- app_assoc.
      * rewrite Hdrop in Hch. now apply Chunked_take.
  - left. split; [reflexivity|assumption].
Qed.

End Splitter.

(** With an empty buffer the first read returns no bytes and the loop
    stops at once. *)
Lemma readChunks_empty_buffer fuel f acc :
  readChunks (S fuel) 0 f acc = Some (ReadDone acc).
Proof.
  simpl. unfold Read. simpl.
  destruct (backing f); [destruct (_ <=? _)|]; reflexivity.
Qed.

(** The read loop of the handler always comes to an end. *)
Lemma splitFile_total bufSize f : is_Some (splitFile bufSize f).
Proof.
  unfold splitFile. destruct bufSize as [|n].
  - rewrite readChunks_empty_buffer. eauto.
  - destruct (readChunks_spec (S n) ltac:(lia) (S (remaining f)) f [])
      as [[-> _]|(cs & -> & _)]; [lia|eauto..].
Qed.

Lemma splitFile_spec bufSize f :
  0 < bufSize ->
  (splitFile bufSize f = Some ReadFailed /\ ~ healthy f) \/
  (exists cs, splitFile bufSize f = Some (ReadDone cs) /\
              Chunked bufSize (drop (offset f) (contents f)) cs).
Proof.
  intros Hpos. unfold splitFile.
  destruct (readChunks_spec bufSize Hpos (S (remaining f)) f [])
    as [?|(cs & Hcs & Hch)]; [lia|now left|right; eauto].
Qed.

Lemma mergeChunks_concat chunks : mergeChunks chunks = concat chunks.
Proof.
  unfold mergeChunks.
  enough (forall acc, foldl (fun m c => m ++ c) acc chunks = acc ++ concat chunks)
    as H by apply H.
  induction chunks as [|c cs IH]; intros acc; simpl.
  - now rewrite app_nil_r.
  - rewrite IH. now rewrite app_assoc.
Qed.

Lemma chunkSize_pos : 0 < chunkSize.
Proof.
  unfold chunkSize. rewrite Nat.shiftl_mul_pow2.
  pose proof (Nat.pow_nonzero 2 20). lia.
Qed.

(** C1. For every byte sequence F of length L and chunk size C (a
    positive number of bytes), splitting F, read from its start off a
    file every byte of which is readable, yields ceil(L/C) chunks, none
    when L = 0, and writing the chunks one after the other in index
    order, as the download handler merges them, gives back F. *)
Theorem split_merge_roundtrip (C : nat) (f : File) :
  0 < C -> healthy f -> offset f = 0 ->
  exists chunks,
    splitFile C f = Some (ReadDone chunks) /\
    length chunks = ceil_div (length (contents f)) C /\
    (length (contents f) = 0 -> chunks = []) /\
    mergeChunks chunks = contents f.
Proof.
  intros HC Hf Hoff.
  destruct (splitFile_spec C f HC) as [[_ Hbad]|(cs & Hsplit & Hch)];
    [contradiction|].
  rewrite Hoff, drop_0 in Hch.
  exists cs. split; [assumption|].
  pose proof (Chunked_count C HC _ _ Hch) as Hcount.
  split; [assumption|]. split.
  - intros HL. rewrite HL, (ceil_div_zero C HC) in Hcount.
    now apply length_zero_iff_nil.
  - rewrite mergeChunks_concat. exact (Chunked_concat C _ _ Hch).
Qed.

Lemma split_merge_roundtrip_witness :
  let f := mkFile InMemory [x01; x02; x03; x04; x05] 0 in
  0 < 2 /\ healthy f /\ offset f = 0 /\
  exists chunks,
    splitFile 2 f = Some (ReadDone chunks) /\
    length chunks = ceil_div (length (contents f)) 2 /\
    (length (contents f) = 0 -> chunks = []) /\
    mergeChunks chunks = contents f.
Proof.
  intros f. split; [lia|]. split; [left; reflexivity|]. split; [reflexivity|].
  apply (split_merge_roundtrip 2 f); [lia|left; reflexivity|reflexivity].
Defined.

(** C6. For every input stream the splitter, whose chunk size is
    1 MiB, comes to an end, and every chunk it produces has exactly
    [chunkSize] bytes, except possibly the last one, which may be
    shorter but is never empty. *)
Theorem chunk_sizes (f : File) :
  chunkSize = 2 ^ 20 /\
  is_Some (splitFile chunkSize f) /\
  forall chunks, splitFile chunkSize f = Some (ReadDone chunks) ->
    forall i c, chunks !! i = Some c ->
      0 < length c /\ length c <= chunkSize /\
      (S i < length chunks -> length c = chunkSize).
Proof.
  split; [|split].
  - unfold chunkSize. rewrite Nat.shiftl_mul_pow2. apply Nat.mul_1_l.
  - apply splitFile_total.
  - intros chunks Hsplit.
    destruct (splitFile_spec chunkSize f chunkSize_pos)
      as [[Hfail _]|(cs & Hcs & Hch)]; [congruence|].
    assert (cs = chunks) as -> by congruence.
    exact (Chunked_sizes chunkSize chunkSize_pos _ _ Hch).
Qed.

Lemma chunk_sizes_witness :
  let f := mkFile InMemory [x61; x62; x63] 0 in
  splitFile chunkSize f = Some (ReadDone [[x61; x62; x63]]) /\
  0 < length [x61; x62; x63] /\ length [x61; x62; x63] <= chunkSize /\
  (1 < 1 -> length [x61; x62; x63] = chunkSize).
Proof.
  intros f.
  assert (splitFile chunkSize f = Some (ReadDone [[x61; x62; x63]])) as H
    by (vm_compute; reflexivity).
  split; [exact H|].
  exact (proj2 (proj2 (chunk_sizes f)) _ H 0 [x61; x62; x63] eq_refl).
Defined.

(** ** The upload handler, path by path *)

Section Upload.

Variables (pg : Server) (newID : string) (sched : list nat).
Variables (w : World) (r : Request).

Lemma upload_no_file :
  uploadedFile r = None ->
  uploadFileHandler pg newID sched w r
  = Some (w, Error "Error retrieving file" StatusBadRequest).
Proof.
  intros HF. unfold uploadFileHandler. fold (uploadedFile r). now rewrite HF.
Qed.

Lemma upload_read_failed h :
  uploadedFile r = Some h ->
  splitFile chunkSize (Open h) = Some ReadFailed ->
  uploadFileHandler pg newID sched w r
  = Some (w, Error "Error reading file" StatusInternalServerError).
Proof.
  intros HF Hs. unfold uploadFileHandler. fold (uploadedFile r).
  now rewrite HF, Hs.
Qed.

Lemma upload_meta_refused h chunks e :
  uploadedFile r = Some h ->
  splitFile chunkSize (Open h) = Some (ReadDone chunks) ->
  failure pg (InsertMeta newID (Filename h) (length chunks)) = Some e ->
  uploadFileHandler pg newID sched w r
  = Some (mkWorld (store w)
            (trace w ++ [mkEvent (InsertMeta newID (Filename h) (length chunks))
                                 (Some e) (store w)]),
          Error "Error storing file metadata" StatusInternalServerError).
Proof.
  intros HF Hs He. unfold uploadFileHandler. fold (uploadedFile r).
  rewrite HF, Hs. unfold dbExec, Exec. now rewrite He.
Qed.

Lemma upload_meta_accepted h chunks :
  uploadedFile r = Some h ->
  splitFile chunkSize (Open h) = Some (ReadDone chunks) ->
  failure pg (InsertMeta newID (Filename h) (length chunks)) = None ->
  uploadFileHandler pg newID sched w r
  = Some (foldl (storeChunk pg newID chunks)
            (mkWorld (with_meta pg newID w h chunks)
               (trace w ++ [mkEvent (InsertMeta newID (Filename h) (length chunks))
                                    None (with_meta pg newID w h chunks)]))
            sched,
          Write [] (uploaded_message newID)).
Proof.
  intros HF Hs He. unfold uploadFileHandler. fold (uploadedFile r).
  rewrite HF, Hs. unfold dbExec, Exec. now rewrite He.
Qed.

Lemma chunk_rows_cons chunks i l :
  chunk_rows pg newID chunks (i :: l)
  = chunk_rows pg newID chunks [i] ++ chunk_rows pg newID chunks l.
Proof.
  unfold chunk_rows, accepted. simpl.
  destruct (write_accepted pg newID chunks i); [|reflexivity].
  simpl. now destruct (chunks !! i).
Qed.

Lemma chunk_stmts_cons chunks i l :
  chunk_stmts newID chunks (i :: l)
  = chunk_stmts newID chunks [i] ++ chunk_stmts newID chunks l.
Proof. unfold chunk_stmts. simpl. now destruct (chunks !! i). Qed.

(** One goroutine of lines 102-111. *)
Lemma storeChunk_step chunks (w0 : World) i :
  let w1 := storeChunk pg newID chunks w0 i in
  file_metadata (store w1) = file_metadata (store w0) /\
  file_chunks (store w1)
  = file_chunks (store w0) ++ chunk_rows pg newID chunks [i] /\
  exists evs, trace w1 = trace w0 ++ evs /\
              stmt <$> evs = chunk_stmts newID chunks [i].
Proof.
  unfold storeChunk, chunk_rows, chunk_stmts, accepted, write_accepted. simpl.
  destruct (chunks !! i) as [c|] eqn:Hi; simpl.
  - unfold dbExec, Exec.
    destruct (failure pg (InsertChunk newID i c)) as [e|] eqn:He; simpl.
    + rewrite app_nil_r. repeat split. eexists [_]. split; reflexivity.
    + rewrite Hi. simpl. repeat split. eexists [_]. split; reflexivity.
  - rewrite !app_nil_r. repeat split. exists []. now rewrite app_nil_r.
Qed.

(** What the goroutines of lines 102-111 leave behind, whatever the
    order they run in: the metadata table as it was, the rows of the
    accepted writes, and one INSERT in the trace per goroutine. *)
Lemma storeChunks_fold chunks : forall (l : list nat) (w0 : World),
  let w' := foldl (storeChunk pg newID chunks) w0 l in
  file_metadata (store w') = file_metadata (store w0) /\
  file_chunks (store w')
  = file_chunks (store w0) ++ chunk_rows pg newID chunks l /\
  exists evs, trace w' = trace w0 ++ evs /\
              stmt <$> evs = chunk_stmts newID chunks l.
Proof.
  induction l as [|i l IH]; intros w0.
  - simpl. rewrite !app_nil_r. repeat split. exists []. now rewrite app_nil_r.
  - cbn [foldl]. cbv zeta.
    destruct (IH (storeChunk pg newID chunks w0 i)) as (Hm & Hc & evs & Ht & Hs).
    destruct (storeChunk_step chunks w0 i) as (Hm1 & Hc1 & evs1 & Ht1 & Hs1).
    rewrite (chunk_rows_cons chunks i l), (chunk_stmts_cons chunks i l).
    rewrite Hm, Hc, Ht, Hm1, Hc1, Ht1.
    split; [reflexivity|]. split; [now rewrite <- app_assoc|].
    exists (evs1 ++ evs). split; [now rewrite <- app_assoc|].
    now rewrite fmap_app, Hs1, Hs.
Qed.

End Upload.

(** ** Rows and statements of the chunk writes *)

Section ChunkWrites.

Variables (pg : Server) (id : string) (chunks : list (list byte)).

Lemma write_accepted_inv i :
  write_accepted pg id chunks i = true ->
  exists c, chunks !! i = Some c /\ failure pg (InsertChunk id i c) = None.
Proof.
  unfold write_accepted. destruct (chunks !! i) as [c|]; [|discriminate].
  destruct (failure pg (InsertChunk id i c)) eqn:He; [discriminate|eauto].
Qed.

Lemma write_accepted_intro i c :
  chunks !! i = Some c -> failure pg (InsertChunk id i c) = None ->
  write_accepted pg id chunks i = true.
Proof. intros Hi He. unfold write_accepted. now rewrite Hi, He. Qed.

Lemma chunk_rows_length l :
  length (chunk_rows pg id chunks l) = length (accepted pg id chunks l).
Proof.
  unfold chunk_rows, accepted. induction l as [|i l IH]; simpl; [reflexivity|].
  destruct (write_accepted pg id chunks i) eqn:Ha; [|assumption].
  destruct (write_accepted_inv i Ha) as (c & Hc & _).
  simpl. rewrite Hc. simpl. now f_equal.
Qed.

Lemma chunk_rows_owner l :
  Forall (fun row => chunk_file_id row = id) (chunk_rows pg id chunks l).
Proof.
  apply Forall_forall. intros row Hrow. unfold chunk_rows in Hrow.
  apply list_elem_of_omap in Hrow as (i & _ & Hi).
  destruct (chunks !! i); simpl in Hi; [|discriminate].
  now injection Hi as <-.
Qed.

Lemma chunk_rows_elem l i c :
  i ∈ l -> chunks !! i = Some c -> failure pg (InsertChunk id i c) = None ->
  mkChunk id i c ∈ chunk_rows pg id chunks l.
Proof.
  intros Hl Hi He. unfold chunk_rows. apply list_elem_of_omap. exists i. split.
  - unfold accepted. apply list_elem_of_In, filter_In. split.
    + now apply list_elem_of_In.
    + now apply write_accepted_intro with c.
  - now rewrite Hi.
Qed.

Lemma chunk_stmts_elem l i c :
  i ∈ l -> chunks !! i = Some c -> InsertChunk id i c ∈ chunk_stmts id chunks l.
Proof.
  intros Hl Hi. unfold chunk_stmts. apply list_elem_of_omap. exists i.
  split; [assumption|]. now rewrite Hi.
Qed.

Lemma chunk_stmts_events l (evs : list Event) :
  stmt <$> evs = chunk_stmts id chunks l -> Forall (is_chunk_insert id) evs.
Proof.
  intros Hmap. apply Forall_forall. intros e He.
  assert (stmt e ∈ chunk_stmts id chunks l) as Hin.
  { rewrite <- Hmap. now apply list_elem_of_fmap_2. }
  unfold chunk_stmts in Hin. apply list_elem_of_omap in Hin as (i & _ & Hi).
  destruct (chunks !! i) as [c|]; simpl in Hi; [|discriminate].
  injection Hi as Hi. now exists i, c.
Qed.

Lemma accepted_rejected l :
  length (accepted pg id chunks l) + length (rejected pg id chunks l) = length l.
Proof.
  unfold accepted, rejected. induction l as [|i l IH]; simpl; [reflexivity|].
  destruct (write_accepted pg id chunks i); simpl; lia.
Qed.

Lemma accepted_Permutation l l' :
  l ≡ₚ l' -> accepted pg id chunks l ≡ₚ accepted pg id chunks l'.
Proof.
  unfold accepted. induction 1 as [|x l l' _ IH|x y l|l l' l'' _ IH1 _ IH2]; simpl.
  - reflexivity.
  - destruct (write_accepted pg id chunks x); [now constructor|assumption].
  - destruct (write_accepted pg id chunks x), (write_accepted pg id chunks y);
      try reflexivity. apply perm_swap.
  - now transitivity (List.filter (write_accepted pg id chunks) l').
Qed.

(** A schedule that runs no goroutine twice leaves at most one row per
    chunk. *)
Lemma chunk_rows_bound l :
  NoDup l -> length (chunk_rows pg id chunks l) <= length chunks.
Proof.
  intros Hnd. apply NoDup_ListNoDup in Hnd. rewrite chunk_rows_length.
  transitivity (length (seq 0 (length chunks))); [|now rewrite length_seq].
  apply NoDup_incl_length.
  - unfold accepted. now apply List.NoDup_filter.
  - intros i Hi. unfold accepted in Hi. apply filter_In in Hi as [_ Ha].
    destruct (write_accepted_inv i Ha) as (c & Hc & _).
    apply in_seq. apply lookup_lt_Some in Hc. lia.
Qed.

Lemma storeChunks_nil l (w : World) : foldl (storeChunk pg id []) w l = w.
Proof. induction l as [|i l IH]; simpl; [reflexivity|exact IH]. Qed.

End ChunkWrites.

Lemma count_chunks_app id meta old rows :
  Forall (fun row => chunk_file_id row = id) rows ->
  count_chunks id (mkDB meta (old ++ rows))
  = count_chunks id (mkDB meta old) + length rows.
Proof.
  intros Hrows. unfold count_chunks. simpl.
  rewrite filter_app, length_app. f_equal.
  induction Hrows as [|row rows Hrow _ IH]; [reflexivity|].
  rewrite filter_cons_True by assumption. simpl. now f_equal.
Qed.

Lemma faulty_nothing bad off : faulty bad off 0 = false.
Proof.
  destruct bad as [b|]; simpl; [|reflexivity].
  destruct (Nat.leb_spec off b), (Nat.ltb_spec b (off + 0)); simpl;
    reflexivity || lia.
Qed.

(** A file without bytes splits into no chunks, whatever holds it. *)
Lemma splitFile_empty bufSize f :
  contents f = [] -> splitFile bufSize f = Some (ReadDone []).
Proof.
  intros Hc. unfold splitFile, remaining. rewrite Hc. simpl.
  unfold Read. rewrite Hc, drop_nil, take_nil. simpl.
  destruct (backing f) as [|bad]; [reflexivity|].
  destruct (bufSize =? 0); [reflexivity|]. now rewrite faulty_nothing.
Qed.

Lemma count_chunks_grow id (db db' : DB) rows :
  file_chunks db' = file_chunks db ++ rows ->
  Forall (fun row => chunk_file_id row = id) rows ->
  count_chunks id db' = count_chunks id db + length rows.
Proof.
  intros Hfc Hrows. destruct db as [m fc], db' as [m' fc']. simpl in Hfc. subst fc'.
  now rewrite <- (count_chunks_app id m fc rows Hrows).
Qed.

(** ** The upload handler as a whole *)

(** The upload handler answers every request. *)
Lemma uploadFileHandler_total pg newID sched w r :
  is_Some (uploadFileHandler pg newID sched w r).
Proof.
  destruct (uploadedFile r) as [h|] eqn:HF.
  - destruct (splitFile_total chunkSize (Open h)) as [[chunks|] Hs].
    + destruct (failure pg (InsertMeta newID (Filename h) (length chunks))) eqn:He.
      * erewrite upload_meta_refused; eauto.
      * erewrite upload_meta_accepted; eauto.
    + erewrite upload_read_failed; eauto.
  - rewrite upload_no_file; eauto.
Qed.

(** C3. For every upload whose metadata write succeeds, the handler
    answers with success and the generated id, whichever chunk writes
    the server refuses; every chunk write is sent all the same, and
    every accepted one leaves its row. *)
Theorem upload_succeeds_despite_chunk_failures pg newID sched w r h chunks :
  uploadedFile r = Some h ->
  splitFile chunkSize (Open h) = Some (ReadDone chunks) ->
  failure pg (InsertMeta newID (Filename h) (length chunks)) = None ->
  sched ≡ₚ seq 0 (length chunks) ->
  exists w',
    uploadFileHandler pg newID sched w r
    = Some (w', Write [] (uploaded_message newID)) /\
    (forall i c, chunks !! i = Some c ->
       InsertChunk newID i c ∈ stmt <$> trace w') /\
    (forall i c, chunks !! i = Some c ->
       failure pg (InsertChunk newID i c) = None ->
       mkChunk newID i c ∈ file_chunks (store w')).
Proof.
  intros HF Hs He Hperm.
  rewrite (upload_meta_accepted pg newID sched w r h chunks HF Hs He).
  eexists. split; [reflexivity|].
  match goal with |- context [foldl _ ?w1 sched] =>
    destruct (storeChunks_fold pg newID chunks sched w1) as (_ & Hc & evs & Ht & Hst)
  end.
  assert (forall i c, chunks !! i = Some c -> i ∈ sched) as Hin.
  { intros i c Hi. rewrite Hperm. apply elem_of_seq.
    apply lookup_lt_Some in Hi. lia. }
  split; intros i c Hi.
  - rewrite Ht, fmap_app, Hst. apply elem_of_app. right.
    apply chunk_stmts_elem; eauto.
  - intros Hok. rewrite Hc. apply elem_of_app. right.
    apply chunk_rows_elem; eauto.
Qed.

Lemma upload_succeeds_despite_chunk_failures_witness :
  let r := upload_of "a.txt" [x61] in
  let h := mkFileHeader "a.txt" (mkFile InMemory [x61] 0) in
  uploadedFile r = Some h /\
  splitFile chunkSize (Open h) = Some (ReadDone [[x61]]) /\
  failure flaky_pg (InsertMeta "id-1" (Filename h) 1) = None /\
  [0] ≡ₚ seq 0 1 /\
  exists w',
    uploadFileHandler flaky_pg "id-1" [0] fresh r
    = Some (w', Write [] (uploaded_message "id-1")) /\
    (forall i c, [[x61]] !! i = Some c ->
       InsertChunk "id-1" i c ∈ stmt <$> trace w') /\
    (forall i c, [[x61]] !! i = Some c ->
       failure flaky_pg (InsertChunk "id-1" i c) = None ->
       mkChunk "id-1" i c ∈ file_chunks (store w')).
Proof.
  intros r h.
  assert (uploadedFile r = Some h) as HF by (vm_compute; reflexivity).
  assert (splitFile chunkSize (Open h) = Some (ReadDone [[x61]])) as Hs
    by (vm_compute; reflexivity).
  assert ([0] ≡ₚ seq 0 1) as Hp by reflexivity.
  repeat (split; [assumption || reflexivity|]).
  exact (upload_succeeds_despite_chunk_failures flaky_pg "id-1" [0] fresh r h
           [[x61]] HF Hs eq_refl Hp).
Defined.

(** C7. Uploading a zero-length input yields zero chunks and succeeds
    when the server takes the metadata row: a FileRecord with
    total_chunks = 0 is written, the metadata INSERT is the only
    statement sent, so no chunk write is attempted, the chunk table is
    as it was, and the answer is the success message with the generated
    id. *)
Theorem empty_upload pg newID sched w r h :
  uploadedFile r = Some h ->
  contents (Open h) = [] ->
  failure pg (InsertMeta newID (Filename h) 0) = None ->
  splitFile chunkSize (Open h) = Some (ReadDone []) /\
  uploadFileHandler pg newID sched w r
  = Some (mkWorld
            (mkDB (file_metadata (store w) ++ [mkMeta newID (Filename h) 0 (now pg)])
                  (file_chunks (store w)))
            (trace w ++
             [mkEvent (InsertMeta newID (Filename h) 0) None
                (mkDB (file_metadata (store w)
                         ++ [mkMeta newID (Filename h) 0 (now pg)])
                      (file_chunks (store w)))]),
          Write [] (uploaded_message newID)).
Proof.
  intros HF Hc He.
  pose proof (splitFile_empty chunkSize (Open h) Hc) as Hs.
  split; [assumption|].
  rewrite (upload_meta_accepted pg newID sched w r h [] HF Hs He).
  now rewrite storeChunks_nil.
Qed.

Lemma empty_upload_witness :
  let r := upload_of "empty.bin" [] in
  let h := mkFileHeader "empty.bin" (mkFile InMemory [] 0) in
  uploadedFile r = Some h /\
  contents (Open h) = [] /\
  failure healthy_pg (InsertMeta "id-0" (Filename h) 0) = None /\
  splitFile chunkSize (Open h) = Some (ReadDone []) /\
  uploadFileHandler healthy_pg "id-0" [] fresh r
  = Some (mkWorld
            (mkDB [mkMeta "id-0" "empty.bin" 0 (now healthy_pg)] [])
            [mkEvent (InsertMeta "id-0" "empty.bin" 0) None
               (mkDB [mkMeta "id-0" "empty.bin" 0 (now healthy_pg)] [])],
          Write [] (uploaded_message "id-0")).
Proof.
  intros r h.
  assert (uploadedFile r = Some h) as HF by (vm_compute; reflexivity).
  split; [exact HF|]. split; [reflexivity|]. split; [reflexivity|].
  exact (empty_upload healthy_pg "id-0" [] fresh r h HF eq_refl eq_refl).
Defined.

(** ** The download handler *)

Section Download.

Variables (pg : Server) (fileID : string) (totalChunks : nat).

(** One goroutine of lines 171-180: the tables stay as they are, one
    SELECT is sent, and slot [index] gets the data of its chunk. *)
Lemma fetchChunk_step (w : World) chunks index ran :
  slots_ok pg (store w) fileID totalChunks ran chunks ->
  exists w' chunks',
    fetchChunk pg fileID totalChunks (w, chunks) index = (w', chunks') /\
    store w' = store w /\
    (exists evs, trace w' = trace w ++ evs /\ Forall is_chunk_select evs) /\
    slots_ok pg (store w) fileID totalChunks
      (fun i => ran i \/ i = index) chunks' /\
    (index < totalChunks ->
     chunks' !! index = Some (chunk_or_empty pg (store w) fileID index)).
Proof.
  intros [Hlen Hslots]. unfold fetchChunk.
  destruct (Nat.ltb_spec index totalChunks) as [Hlt|Hge].
  - unfold dbQueryChunk.
    assert (Forall is_chunk_select
              [mkEvent (SelectChunk fileID index)
                 (errorOf (QueryChunk pg (store w) fileID index)) (store w)]) as Hev.
    { repeat constructor. now exists fileID, index. }
    unfold chunk_or_empty in *.
    destruct (QueryChunk pg (store w) fileID index) as [d|e] eqn:HQ.
    + eexists _, _. split; [reflexivity|]. split; [reflexivity|].
      split; [eauto|]. split; [split|].
      * now rewrite length_insert.
      * intros i Hi. destruct (decide (i = index)) as [->|Hne].
        -- left. unfold chunk_or_empty. rewrite HQ.
           apply list_lookup_insert_eq. lia.
        -- rewrite list_lookup_insert_ne by congruence.
           destruct (Hslots i Hi) as [?|[Hran ?]]; [now left|right].
           split; [|assumption]. intros [?|?]; contradiction.
      * intros _. apply list_lookup_insert_eq. lia.
    + eexists _, _. split; [reflexivity|]. split; [reflexivity|].
      split; [eauto|].
      assert (chunks !! index = Some []) as Hidx.
      { destruct (Hslots index Hlt) as [H|[_ H]]; [|assumption].
        now rewrite HQ in H. }
      split; [split; [assumption|]|intros _; assumption].
      intros i Hi. destruct (decide (i = index)) as [->|Hne].
      * left. unfold chunk_or_empty. now rewrite HQ.
      * destruct (Hslots i Hi) as [?|[Hran ?]]; [now left|right].
        split; [|assumption]. intros [?|?]; contradiction.
  - exists w, chunks. split; [reflexivity|]. split; [reflexivity|].
    split; [exists []; now rewrite app_nil_r|].
    split; [split; [assumption|]|lia].
    intros i Hi. destruct (Hslots i Hi) as [?|[Hran ?]]; [now left|right].
    split; [|assumption]. intros [?|?]; [contradiction|lia].
Qed.

(** All goroutines of a schedule, in the order they run. *)
Lemma fetchChunks_fold : forall (sched : list nat) (w : World) chunks ran,
  slots_ok pg (store w) fileID totalChunks ran chunks ->
  exists w' chunks',
    foldl (fetchChunk pg fileID totalChunks) (w, chunks) sched = (w', chunks') /\
    store w' = store w /\
    (exists evs, trace w' = trace w ++ evs /\ Forall is_chunk_select evs) /\
    slots_ok pg (store w) fileID totalChunks
      (fun i => ran i \/ i ∈ sched) chunks' /\
    (forall i, i ∈ sched -> i < totalChunks ->
       chunks' !! i = Some (chunk_or_empty pg (store w) fileID i)).
Proof.
  induction sched as [|index sched IH]; intros w chunks ran Hok.
  - exists w, chunks. split; [reflexivity|]. split; [reflexivity|].
    split; [exists []; now rewrite app_nil_r|]. split.
    + destruct Hok as [Hlen Hslots]. split; [assumption|].
      intros i Hi. destruct (Hslots i Hi) as [?|[Hran ?]]; [now left|right].
      split; [|assumption]. intros [?|Hin]; [contradiction|].
      now apply elem_of_nil in Hin.
    + intros i Hin. now apply elem_of_nil in Hin.
  - destruct (fetchChunk_step w chunks index ran Hok)
      as (w1 & chunks1 & Hstep & Hst1 & (evs1 & Ht1 & Hev1) & Hok1 & Hidx).
    rewrite <- Hst1 in Hok1.
    destruct (IH w1 chunks1 _ Hok1)
      as (w' & chunks' & Hfold & Hst & (evs & Ht & Hev) & Hok' & Hall).
    rewrite Hst1 in *.
    exists w', chunks'. cbn [foldl]. rewrite Hstep. split; [assumption|].
    split; [assumption|]. split.
    { exists (evs1 ++ evs). rewrite Ht, Ht1, <- app_assoc. split; [reflexivity|].
      now apply Forall_app. }
    destruct Hok' as [Hlen' Hslots']. split; [split; [assumption|]|].
    + intros i Hi. destruct (Hslots' i Hi) as [?|[Hran ?]]; [now left|right].
      split; [|assumption]. rewrite elem_of_cons. tauto.
    + intros i Hin Hi. apply elem_of_cons in Hin as [->|Hin]; [|now apply Hall].
      destruct (Hslots' index Hi) as [?|[Hran ?]]; [assumption|].
      exfalso. apply Hran. left. now right.
Qed.

(** Once every goroutine has run, the slots are the chunks in index
    order. *)
Lemma slots_complete db chunks :
  length chunks = totalChunks ->
  (forall i, i < totalChunks ->
     chunks !! i = Some (chunk_or_empty pg db fileID i)) ->
  chunks = chunk_or_empty pg db fileID <$> seq 0 totalChunks.
Proof.
  intros Hlen Hall. apply list_eq. intros i.
  rewrite list_lookup_fmap.
  destruct (Nat.lt_ge_cases i totalChunks) as [Hlt|Hge].
  - rewrite Hall by assumption. now rewrite lookup_seq_lt.
  - rewrite lookup_ge_None_2 by lia.
    now rewrite lookup_seq_ge.
Qed.

End Download.

Lemma Get_param key q : Get key q = default "" (param key q).
Proof. unfold Get, param. now destruct (List.find _ q). Qed.

Lemma QueryMeta_found pg db id row :
  failure pg (SelectMeta id) = None -> lookup_meta id db = Some row ->
  QueryMeta pg db id = Ok (filename row, total_chunks row).
Proof. unfold QueryMeta, lookup_meta. now intros -> ->. Qed.

Lemma QueryMeta_missing pg db id :
  lookup_meta id db = None -> exists e, QueryMeta pg db id = Err e.
Proof.
  unfold QueryMeta, lookup_meta. intros ->.
  destruct (failure pg (SelectMeta id)); eauto.
Qed.

Lemma slots_ok_start pg db id n :
  slots_ok pg db id n (fun _ => False) (replicate n []).
Proof.
  split; [apply length_replicate|].
  intros i Hi. right. split; [tauto|]. now apply lookup_replicate_2.
Qed.

(** C2. For every download of an existing file id with declared
    total_chunks N whose metadata read succeeds, the body of the answer
    is the concatenation, in index order 0..N-1, of the chunk data, where
    a chunk whose read fails or whose row is absent contributes no
    bytes; this holds for every order in which the N reads run. *)
Theorem download_in_index_order pg sched w r id row :
  Get "id" (Query r) = id -> id <> "" ->
  failure pg (SelectMeta id) = None ->
  lookup_meta id (store w) = Some row ->
  sched ≡ₚ seq 0 (total_chunks row) ->
  exists w',
    downloadFileHandler pg sched w r
    = (w', Write [("Content-Disposition",
                   ("attachment; filename=" ++ filename row)%string)]
                 (concat (chunk_or_empty pg (store w) id
                            <$> seq 0 (total_chunks row)))) /\
    store w' = store w.
Proof.
  intros Hget Hid Hfail Hrow Hperm.
  unfold downloadFileHandler. rewrite Hget.
  rewrite bool_decide_eq_false_2 by assumption.
  unfold dbQueryMeta. rewrite (QueryMeta_found pg (store w) id row Hfail Hrow).
  cbv zeta. cbn iota beta.
  match goal with |- context [foldl _ (?w1, _) sched] =>
    destruct (fetchChunks_fold pg id (total_chunks row) sched w1
                (replicate (total_chunks row) []) (fun _ => False))
      as (w' & chunks' & Hfold & Hst & _ & [Hlen _] & Hall)
  end.
  { apply slots_ok_start. }
  rewrite Hfold. exists w'. split; [|exact Hst].
  f_equal. f_equal. rewrite mergeChunks_concat. f_equal.
  apply slots_complete; [assumption|].
  intros i Hi. apply Hall; [|assumption].
  rewrite Hperm. apply elem_of_seq. lia.
Qed.

Lemma download_in_index_order_witness :
  let r := download_of "id-7" in
  let row := mkMeta "id-7" "notes.txt" 3 "2024-01-01 00:00:00" in
  Get "id" (Query r) = "id-7" /\ "id-7" <> "" /\
  failure healthy_pg (SelectMeta "id-7") = None /\
  lookup_meta "id-7" (store two_of_three) = Some row /\
  [2; 0; 1] ≡ₚ seq 0 (total_chunks row) /\
  exists w',
    downloadFileHandler healthy_pg [2; 0; 1] two_of_three r
    = (w', Write [("Content-Disposition",
                   ("attachment; filename=" ++ filename row)%string)]
                 (concat (chunk_or_empty healthy_pg (store two_of_three) "id-7"
                            <$> seq 0 (total_chunks row)))) /\
    store w' = store two_of_three.
Proof.
  intros r row.
  assert ([2; 0; 1] ≡ₚ seq 0 (total_chunks row)) as Hp.
  { simpl. change [2; 0; 1] with ([2] ++ [0; 1]). now rewrite Permutation_app_comm. }
  split; [reflexivity|]. split; [discriminate|]. split; [reflexivity|].
  split; [reflexivity|]. split; [exact Hp|].
  exact (download_in_index_order healthy_pg [2; 0; 1] two_of_three r "id-7" row
           eq_refl ltac:(discriminate) eq_refl eq_refl Hp).
Defined.

(** C5. For every id that has no FileRecord in the store, download
    fails with NotFound: the metadata SELECT is the only statement sent,
    so no chunk is read, the tables are as they were, and the body is
    the error text, not file content.  (An id is a non-empty value of
    the [id] parameter; the handler takes the empty string for a missing
    id and answers it before this point, see C10.) *)
Theorem download_unknown_id pg sched w r id :
  Get "id" (Query r) = id -> id <> "" ->
  lookup_meta id (store w) = None ->
  exists e,
    downloadFileHandler pg sched w r
    = (mkWorld (store w)
         (trace w ++ [mkEvent (SelectMeta id) (Some e) (store w)]),
       Error "File not found" StatusNotFound).
Proof.
  intros Hget Hid Hrow.
  destruct (QueryMeta_missing pg (store w) id Hrow) as [e He].
  exists e. unfold downloadFileHandler. rewrite Hget.
  rewrite bool_decide_eq_false_2 by assumption.
  unfold dbQueryMeta. now rewrite He.
Qed.

Lemma download_unknown_id_witness :
  let r := download_of "id-9" in
  Get "id" (Query r) = "id-9" /\ "id-9" <> "" /\
  lookup_meta "id-9" (store two_of_three) = None /\
  exists e,
    downloadFileHandler healthy_pg [0; 1; 2] two_of_three r
    = (mkWorld (store two_of_three)
         (trace two_of_three
            ++ [mkEvent (SelectMeta "id-9") (Some e) (store two_of_three)]),
       Error "File not found" StatusNotFound).
Proof.
  intros r. split; [reflexivity|]. split; [discriminate|]. split; [reflexivity|].
  exact (download_unknown_id healthy_pg [0; 1; 2] two_of_three r "id-9"
           eq_refl ltac:(discriminate) eq_refl).
Defined.

(** C10. A download request whose id query parameter is absent or
    empty is answered with a bad-request error and the state it found:
    no statement is sent, neither for the metadata nor for a chunk. *)
Theorem download_requires_id pg sched w r :
  param "id" (Query r) = None \/ param "id" (Query r) = Some "" ->
  downloadFileHandler pg sched w r
  = (w, Error "File ID is required" StatusBadRequest).
Proof.
  intros Hparam. unfold downloadFileHandler.
  assert (Get "id" (Query r) = "") as ->.
  { rewrite Get_param. now destruct Hparam as [->| ->]. }
  reflexivity.
Qed.

Lemma download_requires_id_witness :
  (param "id" (Query (download_of "")) = None \/
   param "id" (Query (download_of "")) = Some "") /\
  downloadFileHandler healthy_pg [0; 1; 2] two_of_three (download_of "")
  = (two_of_three, Error "File ID is required" StatusBadRequest).
Proof.
  split; [right; reflexivity|].
  apply (download_requires_id healthy_pg [0; 1; 2] two_of_three (download_of "")).
  right; reflexivity.
Defined.

Example download_with_a_missing_chunk :
  ResponseBody (downloadFileHandler healthy_pg [2; 0; 1] two_of_three
                  (download_of "id-7")).2
  = [x61; x63; x64].
Proof. reflexivity. Qed.

(** ** Order and extent of the effects of an upload *)

(** C8. In every upload the metadata INSERT is sent before any chunk
    INSERT, and what the upload creates follows the path it takes.
    Without a file in the form, or with a file that cannot be read, no
    statement is sent and the tables stay as they are.  With a file
    split into N chunks whose metadata INSERT the server refuses, that
    INSERT is the only statement sent, the answer is an error and
    nothing is stored, in particular no chunk row.  With the metadata
    INSERT accepted, it is the first statement sent and only chunk
    INSERTs follow it; the upload adds exactly one FileRecord, carrying
    the new id, the file name and N, and at most N chunk rows, all under
    the new id, and nothing else.  The read loop always ends. *)
Theorem upload_metadata_first pg newID sched w r :
  NoDup sched ->
  match uploadedFile r with
  | None =>
      uploadFileHandler pg newID sched w r
      = Some (w, Error "Error retrieving file" StatusBadRequest)
  | Some h =>
      match splitFile chunkSize (Open h) with
      | None => False
      | Some ReadFailed =>
          uploadFileHandler pg newID sched w r
          = Some (w, Error "Error reading file" StatusInternalServerError)
      | Some (ReadDone chunks) =>
          match failure pg (InsertMeta newID (Filename h) (length chunks)) with
          | Some err =>
              uploadFileHandler pg newID sched w r
              = Some (mkWorld (store w)
                        (trace w ++
                         [mkEvent (InsertMeta newID (Filename h) (length chunks))
                            (Some err) (store w)]),
                      Error "Error storing file metadata"
                        StatusInternalServerError)
          | None =>
              exists w' rest,
                uploadFileHandler pg newID sched w r
                = Some (w', Write [] (uploaded_message newID)) /\
                trace w'
                = trace w ++
                  mkEvent (InsertMeta newID (Filename h) (length chunks)) None
                    (with_meta pg newID w h chunks) :: rest /\
                stmt <$> rest = chunk_stmts newID chunks sched /\
                Forall (is_chunk_insert newID) rest /\
                file_metadata (store w')
                = file_metadata (store w)
                    ++ [mkMeta newID (Filename h) (length chunks) (now pg)] /\
                file_chunks (store w')
                = file_chunks (store w) ++ chunk_rows pg newID chunks sched /\
                length (chunk_rows pg newID chunks sched) <= length chunks /\
                Forall (fun row => chunk_file_id row = newID)
                  (chunk_rows pg newID chunks sched)
          end
      end
  end.
Proof.
  intros Hnd. destruct (uploadedFile r) as [h|] eqn:HF.
  - destruct (splitFile_total chunkSize (Open h)) as [[chunks|] Hs]; rewrite Hs.
    + destruct (failure pg (InsertMeta newID (Filename h) (length chunks)))
        as [err|] eqn:He.
      * exact (upload_meta_refused pg newID sched w r h chunks err HF Hs He).
      * rewrite (upload_meta_accepted pg newID sched w r h chunks HF Hs He).
        match goal with |- context [foldl _ ?w1 sched] =>
          destruct (storeChunks_fold pg newID chunks sched w1)
            as (Hm & Hc & evs & Ht & Hst)
        end.
        eexists _, evs. split; [reflexivity|].
        split; [rewrite Ht; simpl; now rewrite <- app_assoc|].
        split; [exact Hst|].
        split; [exact (chunk_stmts_events newID chunks sched evs Hst)|].
        split; [exact Hm|]. split; [exact Hc|].
        split; [now apply chunk_rows_bound|apply chunk_rows_owner].
    + exact (upload_read_failed pg newID sched w r h HF Hs).
  - exact (upload_no_file pg newID sched w r HF).
Qed.

Lemma upload_metadata_first_witness :
  let r := upload_of "a.txt" [x61] in
  let h := mkFileHeader "a.txt" (mkFile InMemory [x61] 0) in
  NoDup [0] /\
  uploadedFile r = Some h /\
  splitFile chunkSize (Open h) = Some (ReadDone [[x61]]) /\
  failure flaky_pg (InsertMeta "id-1" "a.txt" 1) = None /\
  exists w' rest,
    uploadFileHandler flaky_pg "id-1" [0] fresh r
    = Some (w', Write [] (uploaded_message "id-1")) /\
    trace w'
    = trace fresh ++
      mkEvent (InsertMeta "id-1" "a.txt" 1) None
        (with_meta flaky_pg "id-1" fresh h [[x61]]) :: rest /\
    stmt <$> rest = chunk_stmts "id-1" [[x61]] [0] /\
    Forall (is_chunk_insert "id-1") rest /\
    file_metadata (store w')
    = file_metadata (store fresh) ++ [mkMeta "id-1" "a.txt" 1 (now flaky_pg)] /\
    file_chunks (store w')
    = file_chunks (store fresh) ++ chunk_rows flaky_pg "id-1" [[x61]] [0] /\
    length (chunk_rows flaky_pg "id-1" [[x61]] [0]) <= 1 /\
    Forall (fun row => chunk_file_id row = "id-1")
      (chunk_rows flaky_pg "id-1" [[x61]] [0]).
Proof.
  intros r h.
  assert (NoDup [0]) as Hnd by (apply NoDup_singleton).
  assert (uploadedFile r = Some h) as HF by (vm_compute; reflexivity).
  assert (splitFile chunkSize (Open h) = Some (ReadDone [[x61]])) as Hs
    by (vm_compute; reflexivity).
  split; [exact Hnd|]. split; [exact HF|]. split; [exact Hs|].
  split; [reflexivity|].
  pose proof (upload_metadata_first flaky_pg "id-1" [0] fresh r Hnd) as H.
  rewrite HF, Hs in H. exact H.
Defined.

(** C4, as the data model states it, fails: after uploading one byte to
    an empty store the record declares one chunk at a moment when no
    chunk is stored. *)
Lemma visible_record_incomplete :
  ~ visible_record_complete healthy_pg "id-1" [0] fresh (upload_of "a.txt" [x61]).
Proof.
  intros H.
  pose (db1 := mkDB [mkMeta "id-1" "a.txt" 1 (now healthy_pg)] []).
  pose (db2 := mkDB [mkMeta "id-1" "a.txt" 1 (now healthy_pg)]
                    [mkChunk "id-1" 0 [x61]]).
  pose (e1 := mkEvent (InsertMeta "id-1" "a.txt" 1) None db1).
  pose (e2 := mkEvent (InsertChunk "id-1" 0 [x61]) None db2).
  assert (1 = count_chunks "id-1" (after e1)) as Habs; [|discriminate Habs].
  apply (H (mkWorld db2 [e1; e2]) (Write [] (uploaded_message "id-1"))
           [e1; e2] e1 "a.txt" 1).
  - vm_compute. reflexivity.
  - reflexivity.
  - apply list_elem_of_here.
  - reflexivity.
  - reflexivity.
Qed.

(** C4, amended.  At the moment the FileRecord of an upload becomes
    visible, its total_chunks field is the number of chunks the splitter
    produced for the upload, and the store holds as many chunks for the
    id as before the upload; when the upload returns, that number has
    grown by total_chunks less the number of refused chunk writes. *)
Theorem visible_record_declares_split pg newID sched w r w' resp evs e fname n :
  sched ≡ₚ seq 0 n ->
  uploadFileHandler pg newID sched w r = Some (w', resp) ->
  trace w' = trace w ++ evs ->
  e ∈ evs ->
  stmt e = InsertMeta newID fname n ->
  failed e = None ->
  exists h chunks,
    uploadedFile r = Some h /\
    splitFile chunkSize (Open h) = Some (ReadDone chunks) /\
    n = length chunks /\
    after e = with_meta pg newID w h chunks /\
    count_chunks newID (after e) = count_chunks newID (store w) /\
    count_chunks newID (store w') + length (rejected pg newID chunks (seq 0 n))
    = count_chunks newID (store w) + n.
Proof.
  intros Hperm Hrun Ht He Hstmt Hok.
  destruct (uploadedFile r) as [h|] eqn:HF.
  - destruct (splitFile_total chunkSize (Open h)) as [[chunks|] Hs].
    + destruct (failure pg (InsertMeta newID (Filename h) (length chunks)))
        as [err|] eqn:Hf.
      * rewrite (upload_meta_refused pg newID sched w r h chunks err HF Hs Hf) in Hrun.
        injection Hrun as <- _. simpl in Ht. apply app_inv_head in Ht. subst evs.
        apply list_elem_of_singleton in He. subst e. discriminate.
      * rewrite (upload_meta_accepted pg newID sched w r h chunks HF Hs Hf) in Hrun.
        injection Hrun as <- _.
        match type of Ht with context [foldl _ ?w1 sched] =>
          destruct (storeChunks_fold pg newID chunks sched w1)
            as (Hm & Hc & evs' & Ht' & Hst)
        end.
        rewrite Ht' in Ht. simpl in Ht. rewrite <- app_assoc in Ht.
        apply app_inv_head in Ht. subst evs.
        pose proof (chunk_stmts_events newID chunks sched evs' Hst) as Hins.
        apply elem_of_cons in He as [->|He].
        -- simpl in Hstmt. injection Hstmt as _ <-.
           exists h, chunks. repeat split; try assumption.
           rewrite (count_chunks_grow newID (with_meta pg newID w h chunks) _
                      (chunk_rows pg newID chunks sched) Hc
                      (chunk_rows_owner pg newID chunks sched)).
           rewrite chunk_rows_length.
           rewrite (Permutation_length
                      (accepted_Permutation pg newID chunks _ _ Hperm)).
           pose proof (accepted_rejected pg newID chunks (seq 0 (length chunks))) as Har.
           rewrite length_seq in Har.
           change (count_chunks newID (with_meta pg newID w h chunks))
             with (count_chunks newID (store w)).
           lia.
        -- rewrite Forall_forall in Hins. destruct (Hins e He) as (i & d & Hi).
           congruence.
    + rewrite (upload_read_failed pg newID sched w r h HF Hs) in Hrun.
      injection Hrun as <- _. rewrite <- (app_nil_r (trace w)) in Ht at 1.
      apply app_inv_head in Ht. subst evs. now apply elem_of_nil in He.
  - rewrite (upload_no_file pg newID sched w r HF) in Hrun.
    injection Hrun as <- _. rewrite <- (app_nil_r (trace w)) in Ht at 1.
    apply app_inv_head in Ht. subst evs. now apply elem_of_nil in He.
Qed.

Lemma visible_record_declares_split_witness :
  let r := upload_of "a.txt" [x61] in
  let db1 := mkDB [mkMeta "id-1" "a.txt" 1 (now flaky_pg)] [] in
  let e1 := mkEvent (InsertMeta "id-1" "a.txt" 1) None db1 in
  let e2 := mkEvent (InsertChunk "id-1" 0 [x61])
                    (Some "connection reset by peer") db1 in
  let w' := mkWorld db1 [e1; e2] in
  let resp := Write [] (uploaded_message "id-1") in
  [0] ≡ₚ seq 0 1 /\
  uploadFileHandler flaky_pg "id-1" [0] fresh r = Some (w', resp) /\
  trace w' = trace fresh ++ [e1; e2] /\
  e1 ∈ [e1; e2] /\
  stmt e1 = InsertMeta "id-1" "a.txt" 1 /\
  failed e1 = None /\
  exists h chunks,
    uploadedFile r = Some h /\
    splitFile chunkSize (Open h) = Some (ReadDone chunks) /\
    1 = length chunks /\
    after e1 = with_meta flaky_pg "id-1" fresh h chunks /\
    count_chunks "id-1" (after e1) = count_chunks "id-1" (store fresh) /\
    count_chunks "id-1" (store w')
      + length (rejected flaky_pg "id-1" chunks (seq 0 1))
    = count_chunks "id-1" (store fresh) + 1.
Proof.
  intros r db1 e1 e2 w' resp.
  assert ([0] ≡ₚ seq 0 1) as Hp by reflexivity.
  assert (uploadFileHandler flaky_pg "id-1" [0] fresh r = Some (w', resp)) as Hrun
    by (vm_compute; reflexivity).
  assert (e1 ∈ [e1; e2]) as Hin by apply list_elem_of_here.
  split; [exact Hp|]. split; [exact Hrun|]. split; [reflexivity|].
  split; [exact Hin|]. split; [reflexivity|]. split; [reflexivity|].
  exact (visible_record_declares_split flaky_pg "id-1" [0] fresh r w' resp
           [e1; e2] e1 "a.txt" 1 Hp Hrun eq_refl Hin eq_refl eq_refl).
Defined.

(** ** The upload boundary *)

(** C9, as the interface description states it, fails: the body of a
    successful answer is a sentence that ends in the identifier, not the
    identifier. *)
Lemma upload_body_is_not_the_id :
  ~ upload_boundary_as_described healthy_pg "id-1" [0] fresh
      (upload_of "a.txt" [x61]).
Proof.
  intros H.
  pose (db2 := mkDB [mkMeta "id-1" "a.txt" 1 (now healthy_pg)]
                    [mkChunk "id-1" 0 [x61]]).
  pose (w' := mkWorld db2
                [mkEvent (InsertMeta "id-1" "a.txt" 1) None
                   (mkDB [mkMeta "id-1" "a.txt" 1 (now healthy_pg)] []);
                 mkEvent (InsertChunk "id-1" 0 [x61]) None db2]).
  destruct (H w' (Write [] (uploaded_message "id-1"))) as [_ Hbody].
  - vm_compute. reflexivity.
  - specialize (Hbody eq_refl). vm_compute in Hbody. discriminate Hbody.
Qed.

(** C9, amended.  On success the body of the answer is the plain text
    [File uploaded successfully with ID: ] followed by the generated
    identifier. *)
Theorem upload_success_body pg newID sched w r w' resp :
  uploadFileHandler pg newID sched w r = Some (w', resp) ->
  StatusCode resp = StatusOK ->
  ResponseBody resp = uploaded_message newID /\
  ResponseBody resp
  = list_byte_of_string "File uploaded successfully with ID: "
      ++ list_byte_of_string newID.
Proof.
  intros Hrun Hstatus.
  assert (ResponseBody resp = uploaded_message newID) as Hbody.
  { destruct (uploadedFile r) as [h|] eqn:HF.
    - destruct (splitFile_total chunkSize (Open h)) as [[chunks|] Hs].
      + destruct (failure pg (InsertMeta newID (Filename h) (length chunks)))
          as [err|] eqn:Hf.
        * rewrite (upload_meta_refused pg newID sched w r h chunks err HF Hs Hf)
            in Hrun.
          injection Hrun as _ <-. discriminate Hstatus.
        * rewrite (upload_meta_accepted pg newID sched w r h chunks HF Hs Hf)
            in Hrun.
          now injection Hrun as _ <-.
      + rewrite (upload_read_failed pg newID sched w r h HF Hs) in Hrun.
        injection Hrun as _ <-. discriminate Hstatus.
    - rewrite (upload_no_file pg newID sched w r HF) in Hrun.
      injection Hrun as _ <-. discriminate Hstatus. }
  split; [exact Hbody|]. rewrite Hbody. unfold uploaded_message.
  generalize "File uploaded successfully with ID: "%string. intros s.
  induction s as [|a s IH]; simpl; [reflexivity|].
  unfold list_byte_of_string in *. simpl. now rewrite IH.
Qed.

Lemma upload_success_body_witness :
  let db2 := mkDB [mkMeta "id-1" "a.txt" 1 (now healthy_pg)]
                  [mkChunk "id-1" 0 [x61]] in
  let w' := mkWorld db2
              [mkEvent (InsertMeta "id-1" "a.txt" 1) None
                 (mkDB [mkMeta "id-1" "a.txt" 1 (now healthy_pg)] []);
               mkEvent (InsertChunk "id-1" 0 [x61]) None db2] in
  let resp := Write [] (uploaded_message "id-1") in
  uploadFileHandler healthy_pg "id-1" [0] fresh (upload_of "a.txt" [x61])
  = Some (w', resp) /\
  StatusCode resp = StatusOK /\
  ResponseBody resp = uploaded_message "id-1" /\
  ResponseBody resp
  = list_byte_of_string "File uploaded successfully with ID: "
      ++ list_byte_of_string "id-1".
Proof.
  intros db2 w' resp.
  assert (uploadFileHandler healthy_pg "id-1" [0] fresh (upload_of "a.txt" [x61])
          = Some (w', resp)) as Hrun by (vm_compute; reflexivity).
  split; [exact Hrun|]. split; [reflexivity|].
  exact (upload_success_body healthy_pg "id-1" [0] fresh
           (upload_of "a.txt" [x61]) w' resp Hrun eq_refl).
Defined.

(** The 10 MiB of [ParseMultipartForm(10 << 20)] decide where a file
    part is kept, not whether it is taken: a part above them is spilled
    to a temporary file and reaches the handler like any other. *)
Lemma uploadedFile_upload_of fname data :
  fname <> "" ->
  uploadedFile (upload_of fname data)
  = Some (mkFileHeader (Base fname)
            (mkFile (if (N.of_nat (length data) <=? N.shiftl 10 20)%N
                     then InMemory else OnDisk None)
                    data 0)).
Proof.
  intros Hname. unfold uploadedFile, upload_of, ParseMultipartForm, FormFile.
  cbn [MultipartForm Body Query TempFault readForm FormName FileName Data].
  rewrite (bool_decide_eq_false_2 ("file" = "")) by discriminate.
  rewrite (bool_decide_eq_false_2 (fname = "")) by assumption.
  cbv zeta.
  now destruct (N.of_nat (length data) <=? N.shiftl 10 20)%N.
Qed.

Lemma upload_has_no_size_limit pg newID sched w fname data :
  fname <> "" ->
  (forall q, failure pg q = None) ->
  (N.shiftl 10 20 < N.of_nat (length data))%N ->
  exists w',
    uploadFileHandler pg newID sched w (upload_of fname data)
    = Some (w', Write [] (uploaded_message newID)).
Proof.
  intros Hname Hpg Hbig.
  pose proof (uploadedFile_upload_of fname data Hname) as HF.
  destruct (N.leb_spec (N.of_nat (length data)) (N.shiftl 10 20)) as [Hle|_];
    [now apply N.lt_nge in Hbig|].
  destruct (splitFile_spec chunkSize (mkFile (OnDisk None) data 0) chunkSize_pos)
    as [[_ Hbad]|(chunks & Hs & _)].
  - exfalso. apply Hbad. now right.
  - eexists.
    exact (upload_meta_accepted pg newID sched w _ _ chunks HF Hs (Hpg _)).
Qed.

(** ** The download handler leaves the store alone *)

Lemma fetchChunk_eq pg id n (w : World) chunks j :
  fetchChunk pg id n (w, chunks) j
  = if j <? n
    then (mkWorld (store w)
            (trace w ++ [mkEvent (SelectChunk id j)
                           (errorOf (QueryChunk pg (store w) id j)) (store w)]),
          match QueryChunk pg (store w) id j with
          | Ok d => <[j := d]> chunks
          | Err _ => chunks
          end)
    else (w, chunks).
Proof.
  unfold fetchChunk, dbQueryChunk. destruct (j <? n); [|reflexivity].
  now destruct (QueryChunk pg (store w) id j).
Qed.

Lemma fetchChunks_frame pg id n : forall sched (w : World) chunks,
  store (foldl (fetchChunk pg id n) (w, chunks) sched).1 = store w /\
  exists evs,
    trace (foldl (fetchChunk pg id n) (w, chunks) sched).1 = trace w ++ evs /\
    Forall is_select evs.
Proof.
  induction sched as [|j sched IH]; intros w chunks.
  - simpl. split; [reflexivity|]. exists []. now rewrite app_nil_r.
  - cbn [foldl]. rewrite fetchChunk_eq. destruct (j <? n).
    + match goal with |- context [foldl _ (?w1, ?c1) sched] =>
        destruct (IH w1 c1) as (Hst & evs & Ht & Hev)
      end.
      split; [exact Hst|]. eexists (_ :: evs).
      rewrite Ht. simpl. rewrite <- app_assoc. split; [reflexivity|].
      constructor; [exact I|assumption].
    + apply IH.
Qed.

(** X4. A download never writes: whatever the request, the schedule and
    the faults of the server, the tables after the handler are the
    tables before it, and every statement it sent is a SELECT. *)
Theorem download_read_only pg sched w r :
  store (downloadFileHandler pg sched w r).1 = store w /\
  exists evs,
    trace (downloadFileHandler pg sched w r).1 = trace w ++ evs /\
    Forall is_select evs.
Proof.
  unfold downloadFileHandler.
  destruct (bool_decide (Get "id" (Query r) = "")).
  - simpl. split; [reflexivity|]. exists []. now rewrite app_nil_r.
  - unfold dbQueryMeta.
    destruct (QueryMeta pg (store w) (Get "id" (Query r))) as [[fname n]|e].
    + cbv zeta. cbn iota beta.
      match goal with |- context [foldl _ (?w1, ?c1) sched] =>
        destruct (fetchChunks_frame pg (Get "id" (Query r)) n sched w1 c1)
          as (Hst & evs & Ht & Hev);
        destruct (foldl (fetchChunk pg (Get "id" (Query r)) n) (w1, c1) sched)
          as [w2 chunks2]
      end.
      simpl in *. split; [exact Hst|]. eexists (_ :: evs).
      rewrite Ht, <- app_assoc. split; [reflexivity|].
      constructor; [exact I|assumption].
    + simpl. split; [reflexivity|]. eexists [_]. split; [reflexivity|].
      repeat constructor.
Qed.

(** X9. A metadata SELECT the server refuses is answered like an
    unknown id, whether or not the record exists: status 404 with the
    text [File not found], and no chunk is read. *)
Theorem download_store_error_is_not_found pg sched w r id e :
  Get "id" (Query r) = id -> id <> "" ->
  failure pg (SelectMeta id) = Some e ->
  downloadFileHandler pg sched w r
  = (mkWorld (store w) (trace w ++ [mkEvent (SelectMeta id) (Some e) (store w)]),
     Error "File not found" StatusNotFound).
Proof.
  intros Hget Hid Hfail. unfold downloadFileHandler. rewrite Hget.
  rewrite bool_decide_eq_false_2 by assumption.
  unfold dbQueryMeta, QueryMeta. now rewrite Hfail.
Qed.

Lemma download_store_error_is_not_found_witness :
  let pg := mkServer (fun q => match q with
                               | SelectMeta _ => Some "connection refused"
                               | _ => None
                               end) "" in
  Get "id" (Query (download_of "id-7")) = "id-7" /\ "id-7" <> "" /\
  failure pg (SelectMeta "id-7") = Some "connection refused" /\
  lookup_meta "id-7" (store two_of_three)
  = Some (mkMeta "id-7" "notes.txt" 3 "2024-01-01 00:00:00") /\
  downloadFileHandler pg [0; 1; 2] two_of_three (download_of "id-7")
  = (mkWorld (store two_of_three)
       (trace two_of_three
          ++ [mkEvent (SelectMeta "id-7") (Some "connection refused")
                (store two_of_three)]),
     Error "File not found" StatusNotFound).
Proof.
  intros pg. split; [reflexivity|]. split; [discriminate|].
  split; [reflexivity|]. split; [reflexivity|].
  exact (download_store_error_is_not_found pg [0; 1; 2] two_of_three
           (download_of "id-7") "id-7" "connection refused"
           eq_refl ltac:(discriminate) eq_refl).
Defined.

(** ** Uploads that store nothing *)

(** A temporary file with an unreadable byte ahead makes the read loop
    fail, however many chunks it has read before. *)
Lemma readChunks_unreadable k b : 0 < k -> forall fuel f acc,
  backing f = OnDisk (Some b) ->
  offset f <= b -> b < length (contents f) ->
  remaining f < fuel ->
  readChunks fuel k f acc = Some ReadFailed.
Proof.
  intros Hk. induction fuel as [|fuel IH]; intros f acc Hb Hlo Hhi Hfuel; [lia|].
  simpl. unfold Read. rewrite Hb.
  destruct (Nat.eqb_spec k 0) as [|_]; [lia|].
  set (p := take k (drop (offset f) (contents f))).
  assert (length p = Nat.min k (length (contents f) - offset f)) as Hp
    by (unfold p; now rewrite length_take, length_drop).
  unfold faulty.
  destruct (Nat.leb_spec (offset f) b) as [_|]; [|lia].
  destruct (Nat.ltb_spec b (offset f + length p)) as [Hin|Hout]; simpl.
  - reflexivity.
  - destruct (Nat.eqb_spec (length p) 0) as [|Hnz]; [lia|].
    cbn [fatal]. destruct (Nat.eqb_spec (length p) 0) as [|_]; [lia|].
    apply IH; simpl; try assumption; unfold remaining in *; simpl; lia.
Qed.

(** X5. When a byte of the spilled upload cannot be read, the handler
    answers 500 with [Error reading file] and sends no statement: the
    chunks read before the error are dropped and nothing is stored. *)
Theorem upload_read_error_stores_nothing pg newID sched w r h b :
  uploadedFile r = Some h ->
  backing (Open h) = OnDisk (Some b) ->
  offset (Open h) <= b -> b < length (contents (Open h)) ->
  uploadFileHandler pg newID sched w r
  = Some (w, Error "Error reading file" StatusInternalServerError).
Proof.
  intros HF Hb Hlo Hhi. apply (upload_read_failed pg newID sched w r h HF).
  unfold splitFile.
  apply (readChunks_unreadable chunkSize b chunkSize_pos); try assumption. lia.
Qed.

Lemma upload_read_error_stores_nothing_witness :
  let h := mkFileHeader "b.bin" (mkFile (OnDisk (Some 1)) [x61; x62; x63] 0) in
  uploadedFile spilled_bad = Some h /\
  backing (Open h) = OnDisk (Some 1) /\
  offset (Open h) <= 1 /\ 1 < length (contents (Open h)) /\
  uploadFileHandler healthy_pg "id-1" [0] two_of_three spilled_bad
  = Some (two_of_three, Error "Error reading file" StatusInternalServerError).
Proof.
  intros h.
  assert (uploadedFile spilled_bad = Some h) as HF by reflexivity.
  split; [exact HF|]. split; [reflexivity|].
  split; [simpl; lia|]. split; [simpl; lia|].
  apply (upload_read_error_stores_nothing healthy_pg "id-1" [0] two_of_three
           spilled_bad h 1 HF eq_refl); simpl; lia.
Defined.




(** ** An upload and the files that were there before *)

Lemma find_app_miss_r {A} (f : A -> bool) (l l' : list A) :
  Forall (fun x => f x = false) l' -> List.find f (l ++ l') = List.find f l.
Proof.
  intros Hl'. induction l as [|x l IH]; simpl.
  - induction Hl' as [|y l' Hy _ IH]; simpl; [reflexivity|now rewrite Hy].
  - now destruct (f x).
Qed.

Lemma find_app_miss_l {A} (f : A -> bool) (l l' : list A) :
  Forall (fun x => f x = false) l -> List.find f (l ++ l') = List.find f l'.
Proof.
  induction 1 as [|x l Hx _ IH]; simpl; [reflexivity|now rewrite Hx].
Qed.

Lemma QueryMeta_other pg (db db' : DB) id newID metas :
  file_metadata db' = file_metadata db ++ metas ->
  Forall (fun m => file_id m = newID) metas -> id <> newID ->
  QueryMeta pg db' id = QueryMeta pg db id.
Proof.
  intros Hfm Hmetas Hne. unfold QueryMeta. rewrite Hfm.
  rewrite find_app_miss_r; [reflexivity|].
  eapply Forall_impl; [exact Hmetas|]. intros m Hm. simpl in Hm.
  apply bool_decide_eq_false_2. congruence.
Qed.

Lemma QueryChunk_other pg (db db' : DB) id newID rows i :
  file_chunks db' = file_chunks db ++ rows ->
  Forall (fun c => chunk_file_id c = newID) rows -> id <> newID ->
  QueryChunk pg db' id i = QueryChunk pg db id i.
Proof.
  intros Hfc Hrows Hne. unfold QueryChunk. rewrite Hfc.
  rewrite find_app_miss_r; [reflexivity|].
  eapply Forall_impl; [exact Hrows|]. intros c Hc. simpl in Hc.
  rewrite bool_decide_eq_false_2 by congruence. reflexivity.
Qed.

(** Whatever path an upload takes, it only adds rows, and only under
    its own id. *)
Lemma upload_appends pg newID sched w r w1 resp :
  uploadFileHandler pg newID sched w r = Some (w1, resp) ->
  exists metas rows,
    file_metadata (store w1) = file_metadata (store w) ++ metas /\
    file_chunks (store w1) = file_chunks (store w) ++ rows /\
    Forall (fun m => file_id m = newID) metas /\
    Forall (fun c => chunk_file_id c = newID) rows.
Proof.
  intros Hrun.
  assert (forall w0 : World, w1 = w0 -> store w0 = store w ->
            exists metas rows,
              file_metadata (store w1) = file_metadata (store w) ++ metas /\
              file_chunks (store w1) = file_chunks (store w) ++ rows /\
              Forall (fun m => file_id m = newID) metas /\
              Forall (fun c => chunk_file_id c = newID) rows) as Hsame.
  { intros w0 -> ->. exists [], []. now rewrite !app_nil_r. }
  destruct (uploadedFile r) as [h|] eqn:HF.
  - destruct (splitFile_total chunkSize (Open h)) as [[chunks|] Hs].
    + destruct (failure pg (InsertMeta newID (Filename h) (length chunks)))
        as [err|] eqn:He.
      * rewrite (upload_meta_refused pg newID sched w r h chunks err HF Hs He) in Hrun.
        injection Hrun as Hw _. eapply Hsame; [symmetry; exact Hw|reflexivity].
      * rewrite (upload_meta_accepted pg newID sched w r h chunks HF Hs He) in Hrun.
        injection Hrun as <- _.
        match goal with |- context [foldl _ ?w0 sched] =>
          destruct (storeChunks_fold pg newID chunks sched w0) as (Hm & Hc & _)
        end.
        eexists [_], (chunk_rows pg newID chunks sched).
        split; [exact Hm|]. split; [exact Hc|].
        split; [now repeat constructor|apply chunk_rows_owner].
    + rewrite (upload_read_failed pg newID sched w r h HF Hs) in Hrun.
      injection Hrun as Hw _. eapply Hsame; [symmetry; exact Hw|reflexivity].
  - rewrite (upload_no_file pg newID sched w r HF) in Hrun.
    injection Hrun as Hw _. eapply Hsame; [symmetry; exact Hw|reflexivity].
Qed.

Lemma fetchChunks_ext pg id n : forall sched (wa wb : World) chunks,
  (forall i, QueryChunk pg (store wa) id i = QueryChunk pg (store wb) id i) ->
  (foldl (fetchChunk pg id n) (wa, chunks) sched).2
  = (foldl (fetchChunk pg id n) (wb, chunks) sched).2.
Proof.
  induction sched as [|j sched IH]; intros wa wb chunks Hq; [reflexivity|].
  cbn [foldl]. rewrite !fetchChunk_eq. destruct (j <? n).
  - rewrite (Hq j). apply IH. exact Hq.
  - now apply IH.
Qed.

(** The answer to a download depends on the store only through what
    the two SELECTs for the requested id return. *)
Lemma download_response_ext pg sched (wa wb : World) r :
  QueryMeta pg (store wa) (Get "id" (Query r))
  = QueryMeta pg (store wb) (Get "id" (Query r)) ->
  (forall i, QueryChunk pg (store wa) (Get "id" (Query r)) i
             = QueryChunk pg (store wb) (Get "id" (Query r)) i) ->
  (downloadFileHandler pg sched wa r).2 = (downloadFileHandler pg sched wb r).2.
Proof.
  intros Hm Hc. unfold downloadFileHandler.
  destruct (bool_decide (Get "id" (Query r) = "")); [reflexivity|].
  unfold dbQueryMeta. rewrite Hm.
  destruct (QueryMeta pg (store wb) (Get "id" (Query r))) as [[fname n]|e];
    [|reflexivity].
  cbv zeta. cbn iota beta.
  set (A := foldl _ (mkWorld (store wa) _, _) sched).
  set (B := foldl _ (mkWorld (store wb) _, _) sched).
  assert (A.2 = B.2) as HAB by (apply fetchChunks_ext; exact Hc).
  destruct A as [wa2 ca], B as [wb2 cb]. simpl in *. now subst.
Qed.

(** X3. An upload does not touch the files stored under other ids:
    for every id other than the new one, a download after the upload,
    whatever became of the upload, is answered exactly as it would have
    been before it. *)
Theorem upload_leaves_other_files pgU pgD newID schedU schedD w r rd w1 resp :
  Get "id" (Query rd) <> newID ->
  uploadFileHandler pgU newID schedU w r = Some (w1, resp) ->
  (downloadFileHandler pgD schedD w1 rd).2
  = (downloadFileHandler pgD schedD w rd).2.
Proof.
  intros Hne Hrun.
  destruct (upload_appends pgU newID schedU w r w1 resp Hrun)
    as (metas & rows & Hm & Hc & Hmetas & Hrows).
  apply download_response_ext.
  - exact (QueryMeta_other pgD (store w) (store w1) _ newID metas Hm Hmetas Hne).
  - intros i.
    exact (QueryChunk_other pgD (store w) (store w1) _ newID rows i Hc Hrows Hne).
Qed.

Lemma upload_leaves_other_files_witness :
  let r := upload_of "a.txt" [x61] in
  let rd := download_of "id-7" in
  let db2 := mkDB (file_metadata (store two_of_three)
                     ++ [mkMeta "id-1" "a.txt" 1 (now healthy_pg)])
                  (file_chunks (store two_of_three) ++ [mkChunk "id-1" 0 [x61]]) in
  let w1 := mkWorld db2
              [mkEvent (InsertMeta "id-1" "a.txt" 1) None
                 (mkDB (file_metadata db2) (file_chunks (store two_of_three)));
               mkEvent (InsertChunk "id-1" 0 [x61]) None db2] in
  let resp := Write [] (uploaded_message "id-1") in
  Get "id" (Query rd) <> "id-1" /\
  uploadFileHandler healthy_pg "id-1" [0] two_of_three r = Some (w1, resp) /\
  (downloadFileHandler healthy_pg [0; 1; 2] w1 rd).2
  = (downloadFileHandler healthy_pg [0; 1; 2] two_of_three rd).2.
Proof.
  intros r rd db2 w1 resp.
  assert (Get "id" (Query rd) <> "id-1") as Hne by discriminate.
  assert (uploadFileHandler healthy_pg "id-1" [0] two_of_three r = Some (w1, resp))
    as Hrun by (vm_compute; reflexivity).
  split; [exact Hne|]. split; [exact Hrun|].
  exact (upload_leaves_other_files healthy_pg healthy_pg "id-1" [0] [0; 1; 2]
           two_of_three r rd w1 resp Hne Hrun).
Defined.

(** X8. The order in which the chunk-writing goroutines run does not
    show: two runs of the same upload under schedules that are
    permutations of each other give the same answer and the same
    metadata table, and chunk tables with the same rows. *)
Theorem upload_schedule_irrelevant pg newID sched1 sched2 w r :
  sched1 ≡ₚ sched2 ->
  exists w1 w2 resp,
    uploadFileHandler pg newID sched1 w r = Some (w1, resp) /\
    uploadFileHandler pg newID sched2 w r = Some (w2, resp) /\
    file_metadata (store w1) = file_metadata (store w2) /\
    file_chunks (store w1) ≡ₚ file_chunks (store w2).
Proof.
  intros Hperm. destruct (uploadedFile r) as [h|] eqn:HF.
  - destruct (splitFile_total chunkSize (Open h)) as [[chunks|] Hs].
    + destruct (failure pg (InsertMeta newID (Filename h) (length chunks)))
        as [err|] eqn:He.
      * rewrite !(upload_meta_refused pg newID _ w r h chunks err HF Hs He).
        eexists _, _, _. repeat split; reflexivity.
      * rewrite !(upload_meta_accepted pg newID _ w r h chunks HF Hs He).
        eexists _, _, _. split; [reflexivity|]. split; [reflexivity|].
        match goal with |- context [foldl _ ?w0 sched1] =>
          destruct (storeChunks_fold pg newID chunks sched1 w0) as (Hm1 & Hc1 & _);
          destruct (storeChunks_fold pg newID chunks sched2 w0) as (Hm2 & Hc2 & _)
        end.
        split; [now rewrite Hm1, Hm2|]. rewrite Hc1, Hc2.
        apply Permutation_app_head. unfold chunk_rows.
        apply omap_Permutation. now apply accepted_Permutation.
    + rewrite !(upload_read_failed pg newID _ w r h HF Hs).
      eexists _, _, _. repeat split; reflexivity.
  - rewrite !(upload_no_file pg newID _ w r HF).
    eexists _, _, _. repeat split; reflexivity.
Qed.

Lemma upload_schedule_irrelevant_witness :
  [0; 1] ≡ₚ [1; 0] /\
  exists w1 w2 resp,
    uploadFileHandler flaky_pg "id-1" [0; 1] two_of_three (upload_of "a.txt" [x61])
    = Some (w1, resp) /\
    uploadFileHandler flaky_pg "id-1" [1; 0] two_of_three (upload_of "a.txt" [x61])
    = Some (w2, resp) /\
    file_metadata (store w1) = file_metadata (store w2) /\
    file_chunks (store w1) ≡ₚ file_chunks (store w2).
Proof.
  assert ([0; 1] ≡ₚ [1; 0]) as Hp by apply perm_swap.
  split; [exact Hp|].
  exact (upload_schedule_irrelevant flaky_pg "id-1" [0; 1] [1; 0] two_of_three
           (upload_of "a.txt" [x61]) Hp).
Defined.

(** ** An upload followed by a download *)

Section UploadThenDownload.

Variables (pgU : Server) (id : string) (chunks : list (list byte)).

Lemma chunk_rows_one i :
  chunk_rows pgU id chunks [i]
  = if write_accepted pgU id chunks i
    then match chunks !! i with
         | Some c => [mkChunk id i c]
         | None => []
         end
    else [].
Proof.
  unfold chunk_rows, accepted. simpl.
  destruct (write_accepted pgU id chunks i); [|reflexivity].
  simpl. now destruct (chunks !! i).
Qed.

(** A refused write leaves no row for a reader to find. *)
Lemma find_chunk_row_refused i : forall l,
  write_accepted pgU id chunks i = false ->
  List.find (fun row => bool_decide (chunk_file_id row = id)
                        && (chunk_index row =? i))
            (chunk_rows pgU id chunks l) = None.
Proof.
  intros l Hi. induction l as [|j l IH]; [reflexivity|].
  rewrite chunk_rows_cons, chunk_rows_one.
  destruct (write_accepted pgU id chunks j) eqn:Hj; [|exact IH].
  destruct (chunks !! j) as [c|]; [|exact IH].
  simpl. destruct (Nat.eqb_spec j i) as [->|_]; [congruence|].
  now rewrite andb_false_r.
Qed.

(** An accepted write that ran leaves the row a reader finds. *)
Lemma find_chunk_row_accepted i c : forall l,
  i ∈ l -> chunks !! i = Some c ->
  write_accepted pgU id chunks i = true ->
  List.find (fun row => bool_decide (chunk_file_id row = id)
                        && (chunk_index row =? i))
            (chunk_rows pgU id chunks l) = Some (mkChunk id i c).
Proof.
  intros l Hin Hc Hi. induction l as [|j l IH]; [now apply elem_of_nil in Hin|].
  rewrite chunk_rows_cons, chunk_rows_one.
  destruct (decide (j = i)) as [->|Hne].
  - rewrite Hi, Hc. simpl.
    now rewrite bool_decide_eq_true_2, Nat.eqb_refl by reflexivity.
  - apply elem_of_cons in Hin as [?|Hin]; [congruence|].
    destruct (write_accepted pgU id chunks j); [|now apply IH].
    destruct (chunks !! j) as [cj|]; [|now apply IH].
    simpl. destruct (Nat.eqb_spec j i) as [|_]; [contradiction|].
    rewrite andb_false_r. now apply IH.
Qed.

(** What a reader gets for chunk [i] once the upload is over. *)
Lemma chunk_or_empty_uploaded pgD (db' : DB) old l i :
  file_chunks db' = old ++ chunk_rows pgU id chunks l ->
  Forall (fun row => chunk_file_id row <> id) old ->
  i ∈ l -> failure pgD (SelectChunk id i) = None ->
  chunk_or_empty pgD db' id i = stored_or_gap pgU id chunks i.
Proof.
  intros Hfc Hold Hin Hsel. unfold chunk_or_empty, QueryChunk, stored_or_gap.
  rewrite Hsel, Hfc. rewrite find_app_miss_l.
  - destruct (write_accepted pgU id chunks i) eqn:Hi.
    + destruct (write_accepted_inv pgU id chunks i Hi) as (c & Hc & _).
      rewrite (find_chunk_row_accepted i c l Hin Hc Hi). now rewrite Hc.
    + now rewrite (find_chunk_row_refused i l Hi).
  - eapply Forall_impl; [exact Hold|]. intros row Hrow. simpl in Hrow.
    now rewrite bool_decide_eq_false_2.
Qed.

Lemma stored_or_gap_all :
  (forall q, failure pgU q = None) ->
  stored_or_gap pgU id chunks <$> seq 0 (length chunks) = chunks.
Proof.
  intros Hpg. apply list_eq. intros i. rewrite list_lookup_fmap.
  destruct (Nat.lt_ge_cases i (length chunks)) as [Hlt|Hge].
  - rewrite lookup_seq_lt by assumption. simpl.
    destruct (lookup_lt_is_Some_2 chunks i Hlt) as [c Hc].
    unfold stored_or_gap.
    rewrite (write_accepted_intro pgU id chunks i c Hc (Hpg _)).
    now rewrite Hc.
  - rewrite lookup_seq_ge by assumption. simpl.
    symmetry. now apply lookup_ge_None_2.
Qed.

End UploadThenDownload.

(** The answer to a download of a record that is there. *)
Lemma download_found pg sched w r id row :
  Get "id" (Query r) = id -> id <> "" ->
  failure pg (SelectMeta id) = None ->
  lookup_meta id (store w) = Some row ->
  sched ≡ₚ seq 0 (total_chunks row) ->
  (downloadFileHandler pg sched w r).2
  = Write [("Content-Disposition",
            ("attachment; filename=" ++ filename row)%string)]
          (concat (chunk_or_empty pg (store w) id <$> seq 0 (total_chunks row))).
Proof.
  intros Hget Hid Hfail Hrow Hperm.
  unfold downloadFileHandler. rewrite Hget.
  rewrite bool_decide_eq_false_2 by assumption.
  unfold dbQueryMeta. rewrite (QueryMeta_found pg (store w) id row Hfail Hrow).
  cbv zeta. cbn iota beta.
  match goal with |- context [foldl _ (?w1, _) sched] =>
    destruct (fetchChunks_fold pg id (total_chunks row) sched w1
                (replicate (total_chunks row) []) (fun _ => False))
      as (w' & chunks' & Hfold & Hst & _ & [Hlen _] & Hall)
  end.
  { apply slots_ok_start. }
  rewrite Hfold. simpl. f_equal. rewrite mergeChunks_concat. f_equal.
  apply slots_complete; [assumption|].
  intros i Hi. apply Hall; [|assumption].
  rewrite Hperm. apply elem_of_seq. lia.
Qed.

(** An upload whose metadata row is taken, read back under its id. *)
Lemma upload_then_download pgU pgD newID schedU schedD w r rd h chunks :
  uploadedFile r = Some h ->
  splitFile chunkSize (Open h) = Some (ReadDone chunks) ->
  failure pgU (InsertMeta newID (Filename h) (length chunks)) = None ->
  schedU ≡ₚ seq 0 (length chunks) ->
  schedD ≡ₚ seq 0 (length chunks) ->
  fresh_id newID (store w) -> newID <> "" ->
  Get "id" (Query rd) = newID ->
  no_chunk_selects_fail pgD newID ->
  exists w1,
    uploadFileHandler pgU newID schedU w r
    = Some (w1, Write [] (uploaded_message newID)) /\
    (downloadFileHandler pgD schedD w1 rd).2
    = Write [("Content-Disposition",
              ("attachment; filename=" ++ Filename h)%string)]
            (concat (stored_or_gap pgU newID chunks <$> seq 0 (length chunks))).
Proof.
  intros HF Hs He HpU HpD [Hfm Hfc] Hid Hget [HselM HselC].
  rewrite (upload_meta_accepted pgU newID schedU w r h chunks HF Hs He).
  eexists. split; [reflexivity|].
  match goal with |- context [foldl _ ?w0 schedU] =>
    destruct (storeChunks_fold pgU newID chunks schedU w0) as (Hm & Hc & _);
    set (w1 := foldl (storeChunk pgU newID chunks) w0 schedU) in *
  end.
  simpl in Hm, Hc.
  set (row := mkMeta newID (Filename h) (length chunks) (now pgU)).
  assert (lookup_meta newID (store w1) = Some row) as Hrow.
  { unfold lookup_meta. rewrite Hm. rewrite find_app_miss_l.
    - simpl. now rewrite bool_decide_eq_true_2.
    - eapply Forall_impl; [exact Hfm|]. intros m Hm'. simpl in Hm'.
      now apply bool_decide_eq_false_2. }
  rewrite (download_found pgD schedD w1 rd newID row Hget Hid HselM Hrow HpD).
  simpl. f_equal. f_equal. apply Forall_fmap_ext_1. apply Forall_forall.
  intros i Hi.
  apply (chunk_or_empty_uploaded pgU newID chunks pgD (store w1)
           (file_chunks (store w)) schedU i Hc Hfc); [|apply HselC].
  rewrite HpU. exact Hi.
Qed.

(** X2. When the server refuses some chunk writes of an upload, the
    upload still answers with success, and a later download of the new
    id answers 200 with the chunks that were taken, in index order, the
    refused ones missing without a trace in the answer. *)
Theorem partial_upload_downloads_with_gaps
    pgU pgD newID schedU schedD w r rd h chunks :
  uploadedFile r = Some h ->
  splitFile chunkSize (Open h) = Some (ReadDone chunks) ->
  failure pgU (InsertMeta newID (Filename h) (length chunks)) = None ->
  schedU ≡ₚ seq 0 (length chunks) ->
  schedD ≡ₚ seq 0 (length chunks) ->
  fresh_id newID (store w) -> newID <> "" ->
  Get "id" (Query rd) = newID ->
  no_chunk_selects_fail pgD newID ->
  exists w1 resp,
    uploadFileHandler pgU newID schedU w r
    = Some (w1, Write [] (uploaded_message newID)) /\
    (downloadFileHandler pgD schedD w1 rd).2 = resp /\
    StatusCode resp = StatusOK /\
    ResponseBody resp
    = concat (stored_or_gap pgU newID chunks <$> seq 0 (length chunks)).
Proof.
  intros HF Hs He HpU HpD Hfresh Hid Hget Hsel.
  destruct (upload_then_download pgU pgD newID schedU schedD w r rd h chunks
              HF Hs He HpU HpD Hfresh Hid Hget Hsel) as (w1 & Hup & Hdown).
  exists w1. eexists. split; [exact Hup|]. split; [exact Hdown|].
  split; reflexivity.
Qed.

Lemma partial_upload_downloads_with_gaps_witness :
  let r := upload_of "a.txt" [x61] in
  let h := mkFileHeader "a.txt" (mkFile InMemory [x61] 0) in
  uploadedFile r = Some h /\
  splitFile chunkSize (Open h) = Some (ReadDone [[x61]]) /\
  failure flaky_pg (InsertMeta "id-1" (Filename h) 1) = None /\
  [0] ≡ₚ seq 0 1 /\ [0] ≡ₚ seq 0 1 /\
  fresh_id "id-1" (store two_of_three) /\ "id-1" <> "" /\
  Get "id" (Query (download_of "id-1")) = "id-1" /\
  no_chunk_selects_fail healthy_pg "id-1" /\
  exists w1 resp,
    uploadFileHandler flaky_pg "id-1" [0] two_of_three r
    = Some (w1, Write [] (uploaded_message "id-1")) /\
    (downloadFileHandler healthy_pg [0] w1 (download_of "id-1")).2 = resp /\
    StatusCode resp = StatusOK /\
    ResponseBody resp = concat (stored_or_gap flaky_pg "id-1" [[x61]] <$> seq 0 1).
Proof.
  intros r h.
  assert (uploadedFile r = Some h) as HF by (vm_compute; reflexivity).
  assert (splitFile chunkSize (Open h) = Some (ReadDone [[x61]])) as Hs
    by (vm_compute; reflexivity).
  assert ([0] ≡ₚ seq 0 1) as Hp by reflexivity.
  assert (fresh_id "id-1" (store two_of_three)) as Hfresh.
  { split; repeat constructor; discriminate. }
  assert ("id-1" <> "") as Hid by discriminate.
  assert (no_chunk_selects_fail healthy_pg "id-1") as Hsel by (split; reflexivity).
  split; [exact HF|]. split; [exact Hs|]. split; [reflexivity|].
  split; [exact Hp|]. split; [exact Hp|]. split; [exact Hfresh|].
  split; [exact Hid|]. split; [reflexivity|]. split; [exact Hsel|].
  exact (partial_upload_downloads_with_gaps flaky_pg healthy_pg "id-1" [0] [0]
           two_of_three r (download_of "id-1") h [[x61]]
           HF Hs eq_refl Hp Hp Hfresh Hid eq_refl Hsel).
Defined.

(** X1. Round trip through the store.  On a server that refuses
    nothing, uploading a readable file under an id the store does not
    know and then downloading that id gives back the bytes of the file,
    all of them and in order, under the file name it was uploaded with,
    whatever the orders in which the writing and the reading goroutines
    run. *)
Theorem upload_download_roundtrip pg newID schedU schedD w r rd h :
  (forall q, failure pg q = None) ->
  uploadedFile r = Some h ->
  healthy (Open h) -> offset (Open h) = 0 ->
  schedU ≡ₚ seq 0 (ceil_div (length (contents (Open h))) chunkSize) ->
  schedD ≡ₚ seq 0 (ceil_div (length (contents (Open h))) chunkSize) ->
  fresh_id newID (store w) -> newID <> "" ->
  Get "id" (Query rd) = newID ->
  exists w1,
    uploadFileHandler pg newID schedU w r
    = Some (w1, Write [] (uploaded_message newID)) /\
    (downloadFileHandler pg schedD w1 rd).2
    = Write [("Content-Disposition",
              ("attachment; filename=" ++ Filename h)%string)]
            (contents (Open h)).
Proof.
  intros Hpg HF Hh Hoff HpU HpD Hfresh Hid Hget.
  destruct (splitFile_spec chunkSize (Open h) chunkSize_pos)
    as [[_ Hbad]|(chunks & Hs & Hch)]; [contradiction|].
  rewrite Hoff, drop_0 in Hch.
  rewrite <- (Chunked_count chunkSize chunkSize_pos _ _ Hch) in HpU, HpD.
  destruct (upload_then_download pg pg newID schedU schedD w r rd h chunks
              HF Hs (Hpg _) HpU HpD Hfresh Hid Hget) as (w1 & Hup & Hdown).
  { split; intros; apply Hpg. }
  exists w1. split; [exact Hup|]. rewrite Hdown.
  rewrite (stored_or_gap_all pg newID chunks Hpg).
  now rewrite (Chunked_concat chunkSize _ _ Hch).
Qed.

Lemma upload_download_roundtrip_witness :
  let r := upload_of "a.txt" [x61; x62] in
  let h := mkFileHeader "a.txt" (mkFile InMemory [x61; x62] 0) in
  (forall q, failure healthy_pg q = None) /\
  uploadedFile r = Some h /\
  healthy (Open h) /\ offset (Open h) = 0 /\
  [0] ≡ₚ seq 0 (ceil_div (length (contents (Open h))) chunkSize) /\
  [0] ≡ₚ seq 0 (ceil_div (length (contents (Open h))) chunkSize) /\
  fresh_id "id-1" (store two_of_three) /\ "id-1" <> "" /\
  Get "id" (Query (download_of "id-1")) = "id-1" /\
  exists w1,
    uploadFileHandler healthy_pg "id-1" [0] two_of_three r
    = Some (w1, Write [] (uploaded_message "id-1")) /\
    (downloadFileHandler healthy_pg [0] w1 (download_of "id-1")).2
    = Write [("Content-Disposition",
              ("attachment; filename=" ++ Filename h)%string)]
            (contents (Open h)).
Proof.
  intros r h.
  assert (forall q, failure healthy_pg q = None) as Hpg by reflexivity.
  assert (uploadedFile r = Some h) as HF by (vm_compute; reflexivity).
  assert (healthy (Open h)) as Hh by (left; reflexivity).
  assert ([0] ≡ₚ seq 0 (ceil_div (length (contents (Open h))) chunkSize)) as Hp.
  { assert (2 ^ 1 <= chunkSize) as H2.
    { unfold chunkSize. rewrite Nat.shiftl_mul_pow2, Nat.mul_1_l.
      apply Nat.pow_le_mono_r; lia. }
    change (2 ^ 1) with 2 in H2.
    change (length (contents (Open h))) with 2.
    rewrite (ceil_div_short chunkSize chunkSize_pos 2) by lia. reflexivity. }
  assert (fresh_id "id-1" (store two_of_three)) as Hfresh.
  { split; repeat constructor; discriminate. }
  assert ("id-1" <> "") as Hid by discriminate.
  split; [exact Hpg|]. split; [exact HF|]. split; [exact Hh|].
  split; [reflexivity|]. split; [exact Hp|]. split; [exact Hp|].
  split; [exact Hfresh|]. split; [exact Hid|]. split; [reflexivity|].
  exact (upload_download_roundtrip healthy_pg "id-1" [0] [0] two_of_three r
           (download_of "id-1") h Hpg HF Hh eq_refl Hp Hp Hfresh Hid eq_refl).
Defined.

(** X7. The record of an upload declares the ceiling of the file size
    over 1 MiB as its chunk count, under the uploaded file name,
    whatever happens to the chunk writes afterwards. *)
Theorem upload_declares_ceil pg newID sched w r h :
  uploadedFile r = Some h ->
  healthy (Open h) -> offset (Open h) = 0 ->
  failure pg (InsertMeta newID (Filename h)
                (ceil_div (length (contents (Open h))) chunkSize)) = None ->
  exists w1,
    uploadFileHandler pg newID sched w r
    = Some (w1, Write [] (uploaded_message newID)) /\
    file_metadata (store w1)
    = file_metadata (store w)
        ++ [mkMeta newID (Filename h)
              (ceil_div (length (contents (Open h))) chunkSize) (now pg)].
Proof.
  intros HF Hh Hoff He.
  destruct (splitFile_spec chunkSize (Open h) chunkSize_pos)
    as [[_ Hbad]|(chunks & Hs & Hch)]; [contradiction|].
  rewrite Hoff, drop_0 in Hch.
  rewrite <- (Chunked_count chunkSize chunkSize_pos _ _ Hch) in *.
  rewrite (upload_meta_accepted pg newID sched w r h chunks HF Hs He).
  eexists. split; [reflexivity|].
  match goal with |- context [foldl _ ?w0 sched] =>
    destruct (storeChunks_fold pg newID chunks sched w0) as (Hm & _)
  end.
  exact Hm.
Qed.

Lemma upload_declares_ceil_witness :
  let r := upload_of "a.txt" [x61; x62] in
  let h := mkFileHeader "a.txt" (mkFile InMemory [x61; x62] 0) in
  uploadedFile r = Some h /\
  healthy (Open h) /\ offset (Open h) = 0 /\
  failure flaky_pg (InsertMeta "id-1" (Filename h)
                      (ceil_div (length (contents (Open h))) chunkSize)) = None /\
  exists w1,
    uploadFileHandler flaky_pg "id-1" [0] two_of_three r
    = Some (w1, Write [] (uploaded_message "id-1")) /\
    file_metadata (store w1)
    = file_metadata (store two_of_three)
        ++ [mkMeta "id-1" (Filename h)
              (ceil_div (length (contents (Open h))) chunkSize) (now flaky_pg)].
Proof.
  intros r h.
  assert (uploadedFile r = Some h) as HF by (vm_compute; reflexivity).
  assert (healthy (Open h)) as Hh by (left; reflexivity).
  split; [exact HF|]. split; [exact Hh|]. split; [reflexivity|].
  split; [reflexivity|].
  exact (upload_declares_ceil flaky_pg "id-1" [0] two_of_three r h
           HF Hh eq_refl eq_refl).
Defined.

(** ** The listing handler *)

Lemma string_app_assoc (a b c : string) :
  ((a ++ b) ++ c)%string = (a ++ (b ++ c))%string.
Proof.
  induction a as [|x a IH]; [reflexivity|].
  change (String x ((a ++ b) ++ c) = String x (a ++ (b ++ c)))%string.
  now rewrite IH.
Qed.

Lemma string_app_nil_r (a : string) : (a ++ "")%string = a.
Proof.
  induction a as [|x a IH]; [reflexivity|].
  change (String x (a ++ "") = String x a)%string. now rewrite IH.
Qed.

Lemma list_byte_of_string_app (a b : string) :
  list_byte_of_string (a ++ b)%string
  = list_byte_of_string a ++ list_byte_of_string b.
Proof.
  unfold list_byte_of_string.
  induction a as [|x a IH]; [reflexivity|].
  change (String x a ++ b)%string with (String x (a ++ b)%string).
  cbn [list_ascii_of_string List.map app]. now rewrite IH.
Qed.

Lemma listingOf_snoc rows row :
  listingOf (rows ++ [row]) = (listingOf rows ++ lineOf row)%string.
Proof.
  unfold listingOf. induction rows as [|x rows IH]; cbn [foldr app].
  - now rewrite string_app_nil_r.
  - now rewrite IH, string_app_assoc.
Qed.

Section Listing.

Variable scanUUID : string -> option string.

Lemma scanRows_ok : forall rows acc,
  Forall (scans scanUUID) rows ->
  scanRows scanUUID rows acc = Some (acc ++ listingOf rows)%string.
Proof.
  induction rows as [|row rows IH]; intros acc Hall.
  - simpl. now rewrite string_app_nil_r.
  - inversion Hall as [|? ? Hrow Hrest]; subst. unfold scans in Hrow.
    cbn [scanRows]. rewrite Hrow, (IH _ Hrest).
    unfold listingOf. cbn [foldr]. fold (listingOf rows). fold (lineOf row).
    now rewrite string_app_assoc.
Qed.

Lemma scanRows_fail row : forall rows acc,
  row ∈ rows -> scanUUID (file_id row) = None ->
  scanRows scanUUID rows acc = None.
Proof.
  induction rows as [|x rows IH]; intros acc Hin Hrow.
  - now apply elem_of_nil in Hin.
  - simpl. apply elem_of_cons in Hin as [<-|Hin]; [now rewrite Hrow|].
    destruct (scanUUID (file_id x)); [now apply IH|reflexivity].
Qed.

End Listing.

(** X10. When the query and the iteration go through and every id
    column reads back as stored, the listing answers 200 with one line
    per record of the metadata table, in table order, each giving id,
    file name, declared chunk count and upload time; the chunk table
    plays no part in it. *)
Theorem listing_lists_every_record cur scanUUID db :
  query_error cur = None -> stops_after cur = None ->
  Forall (scans scanUUID) (file_metadata db) ->
  getFilesHandler cur scanUUID db
  = Write [] (list_byte_of_string (listingOf (file_metadata db))).
Proof.
  intros Hq Hstop Hall. unfold getFilesHandler, QueryFiles.
  rewrite Hq, Hstop. now rewrite (scanRows_ok scanUUID _ "" Hall).
Qed.

Lemma listing_lists_every_record_witness :
  query_error always = None /\ stops_after always = None /\
  Forall (scans as_stored) (file_metadata two_records) /\
  getFilesHandler always as_stored two_records
  = Write [] (list_byte_of_string (listingOf (file_metadata two_records))).
Proof.
  assert (Forall (scans as_stored) (file_metadata two_records)) as Hall
    by (repeat constructor).
  split; [reflexivity|]. split; [reflexivity|]. split; [exact Hall|].
  exact (listing_lists_every_record always as_stored two_records
           eq_refl eq_refl Hall).
Defined.

Example listing_two_records :
  string_of_list_byte
    (ResponseBody (getFilesHandler always as_stored two_records))
  = ("File ID: id-7, Filename: notes.txt, Chunks: 3, Uploaded: 2024-01-01 00:00:00"
       ++ LF ++
     "File ID: id-8, Filename: plan.txt, Chunks: 1, Uploaded: 2024-01-02 00:00:00"
       ++ LF)%string.
Proof. vm_compute. reflexivity. Qed.

(** X11. One record whose id column cannot be scanned makes the whole
    listing fail: the answer is 500 with [Error reading file metadata],
    and the lines gathered for the records before it are not sent. *)
Theorem listing_scan_error cur scanUUID db row :
  query_error cur = None -> stops_after cur = None ->
  row ∈ file_metadata db -> scanUUID (file_id row) = None ->
  getFilesHandler cur scanUUID db
  = Error "Error reading file metadata" StatusInternalServerError.
Proof.
  intros Hq Hstop Hin Hrow. unfold getFilesHandler, QueryFiles.
  rewrite Hq, Hstop. now rewrite (scanRows_fail scanUUID row _ "" Hin Hrow).
Qed.

Lemma listing_scan_error_witness :
  let row := mkMeta "id-8" "plan.txt" 1 "2024-01-02 00:00:00" in
  query_error always = None /\ stops_after always = None /\
  row ∈ file_metadata two_records /\ only_id7 (file_id row) = None /\
  getFilesHandler always only_id7 two_records
  = Error "Error reading file metadata" StatusInternalServerError.
Proof.
  intros row.
  assert (row ∈ file_metadata two_records) as Hin
    by (apply list_elem_of_further, list_elem_of_here).
  split; [reflexivity|]. split; [reflexivity|]. split; [exact Hin|].
  split; [reflexivity|].
  exact (listing_scan_error always only_id7 two_records row
           eq_refl eq_refl Hin eq_refl).
Defined.

(** X13. The handler does not look at [rows.Err()]: when the iteration
    breaks off after [k] rows, the answer is still 200, with the lines
    of the first [k] records only. *)
Theorem listing_cut_short cur scanUUID db k :
  query_error cur = None -> stops_after cur = Some k ->
  Forall (scans scanUUID) (take k (file_metadata db)) ->
  getFilesHandler cur scanUUID db
  = Write [] (list_byte_of_string (listingOf (take k (file_metadata db)))).
Proof.
  intros Hq Hstop Hall. unfold getFilesHandler, QueryFiles.
  rewrite Hq, Hstop. now rewrite (scanRows_ok scanUUID _ "" Hall).
Qed.

Lemma listing_cut_short_witness :
  let cur := mkCursor None (Some 1) in
  query_error cur = None /\ stops_after cur = Some 1 /\
  Forall (scans as_stored) (take 1 (file_metadata two_records)) /\
  getFilesHandler cur as_stored two_records
  = Write [] (list_byte_of_string
                (listingOf [mkMeta "id-7" "notes.txt" 3 "2024-01-01 00:00:00"])).
Proof.
  intros cur.
  assert (Forall (scans as_stored) (take 1 (file_metadata two_records))) as Hall
    by (repeat constructor).
  split; [reflexivity|]. split; [reflexivity|]. split; [exact Hall|].
  exact (listing_cut_short cur as_stored two_records 1 eq_refl eq_refl Hall).
Defined.

(** X12. After an upload whose metadata row is taken, the listing is
    the listing from before the upload followed by one line for the new
    file, with its id, its name, the number of chunks it was split into
    and the time of the server, whether or not the chunk writes went
    through. *)
Theorem upload_then_listing pg cur scanUUID newID sched w r h chunks :
  uploadedFile r = Some h ->
  splitFile chunkSize (Open h) = Some (ReadDone chunks) ->
  failure pg (InsertMeta newID (Filename h) (length chunks)) = None ->
  query_error cur = None -> stops_after cur = None ->
  Forall (scans scanUUID) (file_metadata (store w)) ->
  scanUUID newID = Some newID ->
  exists w1,
    uploadFileHandler pg newID sched w r
    = Some (w1, Write [] (uploaded_message newID)) /\
    getFilesHandler cur scanUUID (store w1)
    = Write [] (ResponseBody (getFilesHandler cur scanUUID (store w))
                  ++ list_byte_of_string
                       (listingLine newID (Filename h) (length chunks) (now pg))).
Proof.
  intros HF Hs He Hq Hstop Hall Hnew.
  rewrite (upload_meta_accepted pg newID sched w r h chunks HF Hs He).
  eexists. split; [reflexivity|].
  match goal with |- context [foldl _ ?w0 sched] =>
    destruct (storeChunks_fold pg newID chunks sched w0) as (Hm & _);
    set (w1 := foldl (storeChunk pg newID chunks) w0 sched) in *
  end.
  simpl in Hm.
  assert (Forall (scans scanUUID) (file_metadata (store w1))) as Hall1.
  { rewrite Hm. apply Forall_app. split; [exact Hall|]. now repeat constructor. }
  unfold getFilesHandler, QueryFiles. rewrite Hq, Hstop.
  rewrite (scanRows_ok scanUUID _ "" Hall1), (scanRows_ok scanUUID _ "" Hall).
  cbn [ResponseBody Write]. rewrite Hm, listingOf_snoc.
  change ("" ++ ?s)%string with s.
  now rewrite list_byte_of_string_app.
Qed.

Lemma upload_then_listing_witness :
  let r := upload_of "a.txt" [x61] in
  let h := mkFileHeader "a.txt" (mkFile InMemory [x61] 0) in
  let w := mkWorld two_records [] in
  uploadedFile r = Some h /\
  splitFile chunkSize (Open h) = Some (ReadDone [[x61]]) /\
  failure flaky_pg (InsertMeta "id-1" (Filename h) 1) = None /\
  query_error always = None /\ stops_after always = None /\
  Forall (scans as_stored) (file_metadata (store w)) /\
  as_stored "id-1" = Some "id-1" /\
  exists w1,
    uploadFileHandler flaky_pg "id-1" [0] w r
    = Some (w1, Write [] (uploaded_message "id-1")) /\
    getFilesHandler always as_stored (store w1)
    = Write [] (ResponseBody (getFilesHandler always as_stored (store w))
                  ++ list_byte_of_string
                       (listingLine "id-1" (Filename h) 1 (now flaky_pg))).
Proof.
  intros r h w.
  assert (uploadedFile r = Some h) as HF by (vm_compute; reflexivity).
  assert (splitFile chunkSize (Open h) = Some (ReadDone [[x61]])) as Hs
    by (vm_compute; reflexivity).
  assert (Forall (scans as_stored) (file_metadata (store w))) as Hall
    by (repeat constructor).
  split; [exact HF|]. split; [exact Hs|]. split; [reflexivity|].
  split; [reflexivity|]. split; [reflexivity|]. split; [exact Hall|].
  split; [reflexivity|].
  exact (upload_then_listing flaky_pg always as_stored "id-1" [0] w r h [[x61]]
           HF Hs eq_refl eq_refl eq_refl Hall eq_refl).
Defined.

(** X14. An upload is not refused for its size.  On a server that
    refuses nothing, a request whose one part is a file under the name
    [file], with a non-empty file name and content of any length, also
    above the 10 MiB given to [ParseMultipartForm], is answered with
    success; the part is kept in memory up to 10 MiB and read from a
    temporary file above, and its record carries the base name of the
    file name and declares the ceiling of the length over 1 MiB as chunk
    count. *)
Theorem upload_any_size pg newID sched w fname data :
  fname <> "" ->
  (forall q, failure pg q = None) ->
  exists w1,
    uploadedFile (upload_of fname data)
    = Some (mkFileHeader (Base fname)
              (mkFile (if (N.of_nat (length data) <=? N.shiftl 10 20)%N
                       then InMemory else OnDisk None)
                      data 0)) /\
    uploadFileHandler pg newID sched w (upload_of fname data)
    = Some (w1, Write [] (uploaded_message newID)) /\
    file_metadata (store w1)
    = file_metadata (store w)
        ++ [mkMeta newID (Base fname) (ceil_div (length data) chunkSize) (now pg)].
Proof.
  intros Hname Hpg. pose proof (uploadedFile_upload_of fname data Hname) as HF.
  set (h := mkFileHeader (Base fname) _) in HF.
  assert (healthy (Open h)) as Hh.
  { unfold healthy, h. simpl.
    destruct (N.of_nat (length data) <=? N.shiftl 10 20)%N; [now left|now right]. }
  destruct (splitFile_spec chunkSize (Open h) chunkSize_pos)
    as [[_ Hbad]|(chunks & Hs & Hch)]; [contradiction|].
  change (drop (offset (Open h)) (contents (Open h))) with data in Hch.
  rewrite <- (Chunked_count chunkSize chunkSize_pos _ _ Hch).
  rewrite (upload_meta_accepted pg newID sched w _ h chunks HF Hs (Hpg _)).
  eexists. split; [exact HF|]. split; [reflexivity|].
  match goal with |- context [foldl _ ?w0 sched] =>
    destruct (storeChunks_fold pg newID chunks sched w0) as (Hm & _)
  end.
  exact Hm.
Qed.

Lemma upload_any_size_witness :
  "docs/a.txt" <> "" /\
  (forall q, failure healthy_pg q = None) /\
  Base "docs/a.txt" = "a.txt" /\
  exists w1,
    uploadedFile (upload_of "docs/a.txt" [x61; x62])
    = Some (mkFileHeader (Base "docs/a.txt")
              (mkFile (if (N.of_nat (length [x61; x62]) <=? N.shiftl 10 20)%N
                       then InMemory else OnDisk None)
                      [x61; x62] 0)) /\
    uploadFileHandler healthy_pg "id-1" [0] two_of_three
      (upload_of "docs/a.txt" [x61; x62])
    = Some (w1, Write [] (uploaded_message "id-1")) /\
    file_metadata (store w1)
    = file_metadata (store two_of_three)
        ++ [mkMeta "id-1" (Base "docs/a.txt")
              (ceil_div (length [x61; x62]) chunkSize) (now healthy_pg)].
Proof.
  assert ("docs/a.txt" <> "") as Hname by discriminate.
  assert (forall q, failure healthy_pg q = None) as Hpg by reflexivity.
  split; [exact Hname|]. split; [exact Hpg|]. split; [reflexivity|].
  exact (upload_any_size healthy_pg "id-1" [0] two_of_three "docs/a.txt"
           [x61; x62] Hname Hpg).
Defined.

Example Base_examples :
  Base "dir/a.txt" = "a.txt" /\ Base "a.txt" = "a.txt" /\ Base "up/" = "up" /\
  Base "///" = "/" /\ Base "" = ".".
Proof. repeat split; reflexivity. Qed.

(** A part named [file] without a file name is a form value, not a
    file: the handler finds no file and answers 400. *)
Example value_part_is_no_file :
  uploadFileHandler healthy_pg "id-1" [0] two_of_three (upload_of "" [x61])
  = Some (two_of_three, Error "Error retrieving file" StatusBadRequest).
Proof. reflexivity. Qed.
